(** * go-queryparams: struct <-> url.Values codec

    A shallow embedding of [queryparams.go] (package [queryparams]) and the
    properties of [Marshal] and [Unmarshal] that its specification states.

    Layout of the development:
    - [Utf8], [Unicode], [Strings], [Strconv], [Time], [Url]: the pieces
      of the Go standard library the package calls, on Go's own data (byte
      strings in UTF-8, sized integers as [Z], [map[string][]string] as a
      [gmap]);
    - the reflected data model ([GoType], [Value], [Field], [Struct], [Any])
      and the environment [Env] (the Unicode case tables, the offset of
      [time.Local], the layout parser of [time.Parse], float formatting,
      and the [Marshaler] and [Unmarshaler] methods of the types in play);
    - the package itself: [parseTag], [implementsMarshaler], [toString],
      [implementsUnmarshaler], [setFromString], [Marshal], [Unmarshal];
    - vocabulary for the statements, a sample environment and records;
    - facts about the library pieces and about the two loops;
    - the claims C1 to C10, then further facts and the further properties
      X1 to X19 of the package;
    - each claim and each further property on a sample record. *)

From Stdlib Require Import ZArith Ascii String List Bool Lia.
From stdpp Require Import base option list strings gmap fin_maps.

Local Open Scope string_scope.
Local Open Scope list_scope.
Local Open Scope Z_scope.

Set Warnings "-register-all".

(* ===================================================================== *)
(** ** Errors *)
(* ===================================================================== *)

(** The two causes a [*strconv.NumError] carries. *)
Inductive NumCause : Type := ErrSyntax | ErrRange.

(** Every error value the package can return, by the place that builds it.
    [ErrField] is [fmt.Errorf("field %q: %w", name, err)]: it records the
    resolved key and wraps the cause. *)
Inductive Error : Type :=
| ErrNotStruct (ty : string)
| ErrNotPointer (ty : string)
| ErrUnsupportedType (kind : string)
| ErrUnsupportedKind (kind : string)
| ErrNum (fn : string) (num : string) (cause : NumCause)
| ErrTimeParse (value : string)
| ErrCustom (msg : string)
| ErrField (name : string) (cause : Error).

(** Go's [(T, error)] where [T] is not looked at once [error != nil]. *)
Inductive Result (A : Type) : Type :=
| Ok (a : A)
| Err (e : Error).
Arguments Ok {A} a.
Arguments Err {A} e.

(* ===================================================================== *)
(** ** packages unicode/utf8 and unicode *)
(* ===================================================================== *)

Module Utf8.

Definition RuneError : Z := 65533.
Definition RuneSelf : Z := 128.
Definition MaxRune : Z := 1114111.

Definition byteOf (c : ascii) : Z := Z.of_N (N_of_ascii c).
Definition toByte (b : Z) : ascii := ascii_of_N (Z.to_N b).

Definition between (lo hi : Z) (c : ascii) : bool :=
  (lo <=? byteOf c) && (byteOf c <=? hi).

(** The six payload bits of a continuation byte. *)
Definition low6 (c : ascii) : Z := Z.land (byteOf c) 63.

(** [utf8.DecodeRuneInString]: the first rune of [s] and its width in
    bytes. A byte that starts no valid encoding (a stray continuation
    byte, a lead byte without its continuation bytes, an overlong form, a
    surrogate, a value above [MaxRune]) decodes as [RuneError] of width 1.
    The second byte is held to the range that the lead byte accepts. *)
Definition DecodeRuneInString (s : string) : Z * nat :=
  match s with
  | EmptyString => (RuneError, 0%nat)
  | String c0 rest =>
      let b0 := byteOf c0 in
      if b0 <? RuneSelf then (b0, 1%nat)
      else if (194 <=? b0) && (b0 <=? 223) then
        match rest with
        | String c1 _ =>
            if between 128 191 c1
            then (Z.lor (Z.shiftl (Z.land b0 31) 6) (low6 c1), 2%nat)
            else (RuneError, 1%nat)
        | _ => (RuneError, 1%nat)
        end
      else if (224 <=? b0) && (b0 <=? 239) then
        let lo := if b0 =? 224 then 160 else 128 in
        let hi := if b0 =? 237 then 159 else 191 in
        match rest with
        | String c1 (String c2 _) =>
            if between lo hi c1 && between 128 191 c2
            then (Z.lor (Z.shiftl (Z.land b0 15) 12)
                    (Z.lor (Z.shiftl (low6 c1) 6) (low6 c2)), 3%nat)
            else (RuneError, 1%nat)
        | _ => (RuneError, 1%nat)
        end
      else if (240 <=? b0) && (b0 <=? 244) then
        let lo := if b0 =? 240 then 144 else 128 in
        let hi := if b0 =? 244 then 143 else 191 in
        match rest with
        | String c1 (String c2 (String c3 _)) =>
            if between lo hi c1 && between 128 191 c2 && between 128 191 c3
            then (Z.lor (Z.shiftl (Z.land b0 7) 18)
                    (Z.lor (Z.shiftl (low6 c1) 12)
                       (Z.lor (Z.shiftl (low6 c2) 6) (low6 c3))), 4%nat)
            else (RuneError, 1%nat)
        | _ => (RuneError, 1%nat)
        end
      else (RuneError, 1%nat)
  end.

(** A continuation byte carrying bits [shift .. shift+5] of [r]. *)
Definition contByte (r shift : Z) : ascii :=
  toByte (Z.lor 128 (Z.land (Z.shiftr r shift) 63)).

Definition encode3 (r : Z) : string :=
  String (toByte (Z.lor 224 (Z.shiftr r 12)))
    (String (contByte r 6) (String (contByte r 0) "")).

(** [utf8.AppendRune] on an empty buffer: one to four bytes; a surrogate
    or a value outside [0 .. MaxRune] is written as [RuneError]. *)
Definition EncodeRune (r : Z) : string :=
  if (r <? 0) || (MaxRune <? r) || ((55296 <=? r) && (r <=? 57343)) then encode3 RuneError
  else if r <? 128 then String (toByte r) ""
  else if r <? 2048 then
    String (toByte (Z.lor 192 (Z.shiftr r 6))) (String (contByte r 0) "")
  else if r <? 65536 then encode3 r
  else
    String (toByte (Z.lor 240 (Z.shiftr r 18)))
      (String (contByte r 12) (String (contByte r 6) (String (contByte r 0) ""))).

End Utf8.

(** The case tables of package [unicode] above ASCII: the lower-case
    mapping [unicode.To(unicode.LowerCase, r)] and the upper-case property
    [unicode.IsUpper(r)]. The tables are data of the Go distribution; the
    development takes them as they come. *)
Class CaseTables : Type := {
  toLowerTable : Z -> Z;
  isUpperTable : Z -> bool
}.

Module Unicode.

Definition MaxASCII : Z := 127.

(** [unicode.ToLower]: ASCII by arithmetic, the rest from the tables. *)
Definition ToLower `{CaseTables} (r : Z) : Z :=
  if r <=? MaxASCII then (if (65 <=? r) && (r <=? 90) then r + 32 else r)
  else toLowerTable r.

(** [unicode.IsUpper]: in ASCII the letters [A] to [Z]. *)
Definition IsUpper `{CaseTables} (r : Z) : bool :=
  if r <=? MaxASCII then (65 <=? r) && (r <=? 90)
  else isUpperTable r.

End Unicode.

(* ===================================================================== *)
(** ** package strings *)
(* ===================================================================== *)

Module Strings.

(** One byte of [strings.ToLower] on its ASCII path:
    [if 'A' <= c && c <= 'Z' { c += 'a' - 'A' }]. *)
Definition lowerByte (c : ascii) : ascii :=
  let n := N_of_ascii c in
  if ((65 <=? n) && (n <=? 90))%N then ascii_of_N (n + 32) else c.

(** The ASCII path of [strings.ToLower], byte by byte. *)
Fixpoint lowerBytes (s : string) : string :=
  match s with
  | EmptyString => EmptyString
  | String c rest => String (lowerByte c) (lowerBytes rest)
  end.

(** Every byte of [s] is below [utf8.RuneSelf]. *)
Fixpoint isASCII (s : string) : bool :=
  match s with
  | EmptyString => true
  | String c rest => (Utf8.byteOf c <? Utf8.RuneSelf) && isASCII rest
  end.

(** [strings.Split(s, sep)] for a one-byte separator: the pieces between
    the separators, [n+1] pieces for [n] separators. *)
Fixpoint Split (s : string) (sep : ascii) : list string :=
  match s with
  | EmptyString => [EmptyString]
  | String c rest =>
      if Ascii.eqb c sep then EmptyString :: Split rest sep
      else match Split rest sep with
           | p :: ps => String c p :: ps
           | [] => [String c EmptyString]
           end
  end.

(** The slice expressions [s[:n]] and [s[n:]] on a byte string. *)
Fixpoint sliceTo (n : nat) (s : string) : string :=
  match n, s with
  | S n', String c rest => String c (sliceTo n' rest)
  | _, _ => EmptyString
  end.

Fixpoint sliceFrom (n : nat) (s : string) : string :=
  match n, s with
  | S n', String _ rest => sliceFrom n' rest
  | _, _ => s
  end.

(** The loop of [strings.Map]: the string is read rune by rune (as
    [for _, c := range s] does, an invalid byte giving [RuneError]), each
    rune is mapped, and the result is written in UTF-8; a negative result
    drops the rune. [fuel] bounds the number of runes. *)
Fixpoint mapRunes (mapping : Z -> Z) (fuel : nat) (s : string) : string :=
  match fuel, s with
  | S fuel', String _ _ =>
      let '(c, width) := Utf8.DecodeRuneInString s in
      let r := mapping c in
      (if r <? 0 then "" else Utf8.EncodeRune r)
      +:+ mapRunes mapping fuel' (sliceFrom width s)
  | _, _ => EmptyString
  end.

(** [strings.Map(mapping, s)]. *)
Definition Map (mapping : Z -> Z) (s : string) : string :=
  mapRunes mapping (String.length s) s.

(** [strings.ToLower]: the byte loop when the string is all ASCII, else
    [Map(unicode.ToLower, s)]. *)
Definition ToLower `{CaseTables} (s : string) : string :=
  if isASCII s then lowerBytes s else Map Unicode.ToLower s.

End Strings.

(* ===================================================================== *)
(** ** package strconv (integers and booleans) *)
(* ===================================================================== *)

Module Strconv.

Definition digitChar (d : Z) : ascii := ascii_of_N (48 + Z.to_N d).

(** Decimal digits of [u], most significant first, in front of [acc]. *)
Fixpoint formatDigits (fuel : nat) (u : Z) (acc : string) : string :=
  match fuel with
  | O => acc
  | S fuel' =>
      if u <? 10 then String (digitChar u) acc
      else formatDigits fuel' (u / 10) (String (digitChar (u mod 10)) acc)
  end.

(** [strconv.FormatUint(u, 10)]; a [uint64] has at most 20 digits. *)
Definition FormatUint (u : Z) : string := formatDigits 20 u "".

(** [strconv.FormatInt(i, 10)]. *)
Definition FormatInt (i : Z) : string :=
  if i <? 0 then String "-" (FormatUint (- i)) else FormatUint i.

(** [strconv.FormatBool]. *)
Definition FormatBool (b : bool) : string := if b then "true" else "false".

Definition maxUint64 : Z := 2 ^ 64 - 1.

(** The loop of [strconv.ParseUint] for base 10 (where ['_'] and letters
    are syntax errors), with the two overflow tests of the library on the
    64-bit accumulator written out. Returns the value Go returns next to
    the error. *)
Fixpoint parseUintLoop (maxVal : Z) (s : string) (n : Z) : Z * option NumCause :=
  match s with
  | EmptyString => (n, None)
  | String c rest =>
      let b := N_of_ascii c in
      if ((48 <=? b) && (b <=? 57))%N then
        let d := Z.of_N b - 48 in
        let cutoff := maxUint64 / 10 + 1 in
        if cutoff <=? n then (maxVal, Some ErrRange)
        else
          let n10 := (n * 10) mod 2 ^ 64 in
          let n1 := (n10 + d) mod 2 ^ 64 in
          if (n1 <? n10) || (maxVal <? n1) then (maxVal, Some ErrRange)
          else parseUintLoop maxVal rest n1
      else (0, Some ErrSyntax)
  end.

(** [strconv.ParseUint(s, 10, bitSize)] with [1 <= bitSize <= 64]. *)
Definition ParseUint_raw (s : string) (bitSize : Z) : Z * option NumCause :=
  if String.eqb s "" then (0, Some ErrSyntax)
  else parseUintLoop (2 ^ bitSize - 1) s 0.

Definition ParseUint (s : string) (bitSize : Z) : Result Z :=
  match ParseUint_raw s bitSize with
  | (n, None) => Ok n
  | (_, Some c) => Err (ErrNum "ParseUint" s c)
  end.

(** [strconv.ParseInt(s, 10, bitSize)]: sign, then [ParseUint], then the
    signed range test against [1 << (bitSize-1)]. *)
Definition ParseInt (s0 : string) (bitSize : Z) : Result Z :=
  match s0 with
  | EmptyString => Err (ErrNum "ParseInt" s0 ErrSyntax)
  | String c rest =>
      let '(neg, s) :=
        if Ascii.eqb c "+" then (false, rest)
        else if Ascii.eqb c "-" then (true, rest)
        else (false, s0) in
      match ParseUint_raw s bitSize with
      | (_, Some ErrSyntax) => Err (ErrNum "ParseInt" s0 ErrSyntax)
      | (un, _) =>
          let cutoff := 2 ^ (bitSize - 1) in
          if negb neg && (cutoff <=? un) then Err (ErrNum "ParseInt" s0 ErrRange)
          else if neg && (cutoff <? un) then Err (ErrNum "ParseInt" s0 ErrRange)
          else Ok (if neg then - un else un)
      end
  end.

(** [strconv.ParseBool]. *)
Definition ParseBool (str : string) : Result bool :=
  if existsb (String.eqb str) ["1"; "t"; "T"; "true"; "TRUE"; "True"] then Ok true
  else if existsb (String.eqb str) ["0"; "f"; "F"; "false"; "FALSE"; "False"] then Ok false
  else Err (ErrNum "ParseBool" str ErrSyntax).

End Strconv.

(* ===================================================================== *)
(** ** package time (RFC 3339 only) *)
(* ===================================================================== *)

Module Time.

(** The [*Location] of a [time.Time], with the offset east of UTC, in
    seconds, that the location has at the time's instant (what
    [loc.lookup(t.unixSec())] gives): [UTC] (Go's nil pointer), [Local],
    a [FixedZone(name, offset)], or a zone of the time zone database by
    its name. Two locations are the same when they are the same in this
    sense, as [reflect.DeepEqual] finds them; two fixed zones of one name
    and offset are the same location. *)
Inductive Location : Type :=
| UTC
| Local (offset : Z)
| FixedZone (name : string) (offset : Z)
| LoadLocation (name : string) (offset : Z).

(** A [time.Time] without a monotonic clock reading: the instant (seconds
    since the Unix epoch and the nanoseconds within that second) and the
    location. *)
Record Time : Type := mkTime { unixSec : Z; nsec : Z; loc : Location }.

Definition offset (t : Time) : Z :=
  match loc t with
  | UTC => 0
  | Local off | FixedZone _ off | LoadLocation _ off => off
  end.

(** The zero [time.Time{}]: January 1, year 1, 00:00:00 UTC. *)
Definition zero : Time := mkTime (-62135596800) 0 UTC.

(** [reflect.Value.IsZero] on a [time.Time]: all fields zero. *)
Definition IsZero (t : Time) : bool :=
  (unixSec t =? unixSec zero) && (nsec t =? 0)
  && match loc t with UTC => true | _ => false end.

(** *** The proleptic Gregorian calendar *)

Definition isLeap (year : Z) : bool :=
  (year mod 4 =? 0) && (negb (year mod 100 =? 0) || (year mod 400 =? 0)).

Definition daysIn (month year : Z) : Z :=
  if month =? 2 then (if isLeap year then 29 else 28)
  else if (month =? 4) || (month =? 6) || (month =? 9) || (month =? 11) then 30
  else 31.

(** Days since 1970-01-01 to (year, month, day) and back, through
    400-year eras of 146097 days that start on March 1. [civilOfDoe]
    takes the day within the era to the year within the era (0..400),
    the month and the day. *)
Definition civilOfDoe (doe : Z) : Z * Z * Z :=
  let yoe := (doe - doe / 1460 + doe / 36524 - doe / 146096) / 365 in
  let doy := doe - (365 * yoe + yoe / 4 - yoe / 100) in
  let mp := (5 * doy + 2) / 153 in
  let d := doy - (153 * mp + 2) / 5 + 1 in
  let m := if mp <? 10 then mp + 3 else mp - 9 in
  (yoe + (if m <=? 2 then 1 else 0), m, d).

Definition civilOfDays (days : Z) : Z * Z * Z :=
  let z := days + 719468 in
  let '(y, m, d) := civilOfDoe (z mod 146097) in
  (y + z / 146097 * 400, m, d).

Definition daysOfCivil (year month day : Z) : Z :=
  let y := if month <=? 2 then year - 1 else year in
  let era := y / 400 in
  let yoe := y mod 400 in
  let mp := if 2 <? month then month - 3 else month + 9 in
  let doy := (153 * mp + 2) / 5 + day - 1 in
  let doe := yoe * 365 + yoe / 4 - yoe / 100 + doy in
  era * 146097 + doe - 719468.

(** The broken-down time that [Format] prints and [Parse] reads. *)
Record Civil : Type := mkCivil {
  cYear : Z; cMonth : Z; cDay : Z; cHour : Z; cMin : Z; cSec : Z
}.

(** [t.Date()] and [t.Clock()], in the time's own location. *)
Definition civilOf (t : Time) : Civil :=
  let abs := unixSec t + offset t in
  let '(y, m, d) := civilOfDays (abs / 86400) in
  let s := abs mod 86400 in
  mkCivil y m d (s / 3600) (s mod 3600 / 60) (s mod 60).

(** [time.Date(year, month, day, hour, min, sec, 0, time.UTC).Unix()]. *)
Definition unixOfCivil (c : Civil) : Z :=
  daysOfCivil (cYear c) (cMonth c) (cDay c) * 86400
  + cHour c * 3600 + cMin c * 60 + cSec c.

(** *** Format *)

Fixpoint zeros (n : nat) : string :=
  match n with O => "" | S n' => String "0" (zeros n') end.

(** [appendInt(b, x, width)]: sign, zero padding to [width], digits. *)
Definition appendInt (x : Z) (width : nat) : string :=
  let ds := Strconv.formatDigits 20 (Z.abs x) "" in
  (if x <? 0 then "-" else "") +:+ zeros (width - String.length ds) +:+ ds.

(** The layout element [Z07:00]: ["Z"] at offset 0, else sign, hours,
    colon, minutes; Go's [/] and [%] truncate toward zero. *)
Definition formatZone (off : Z) : string :=
  if off =? 0 then "Z"
  else
    let zone := Z.quot off 60 in
    (if zone <? 0 then "-" else "+")
    +:+ appendInt (Z.abs zone / 60) 2 +:+ ":" +:+ appendInt (Z.abs zone mod 60) 2.

Definition formatCivil (c : Civil) : string :=
  appendInt (cYear c) 4 +:+ "-" +:+ appendInt (cMonth c) 2 +:+ "-" +:+ appendInt (cDay c) 2
  +:+ "T" +:+ appendInt (cHour c) 2 +:+ ":" +:+ appendInt (cMin c) 2 +:+ ":" +:+ appendInt (cSec c) 2.

(** [t.Format(time.RFC3339)], layout ["2006-01-02T15:04:05Z07:00"]: the
    layout has no fractional-second element. *)
Definition FormatRFC3339 (t : Time) : string :=
  formatCivil (civilOf t) +:+ formatZone (offset t).

(** *** Parse *)

Definition isDigit (c : ascii) : bool :=
  let b := N_of_ascii c in ((48 <=? b) && (b <=? 57))%N.

Fixpoint digitsVal (s : string) (x : Z) : option Z :=
  match s with
  | EmptyString => Some x
  | String c rest =>
      if isDigit c then digitsVal rest (x * 10 + (Z.of_N (N_of_ascii c) - 48))
      else None
  end.

(** The [parseUint] closure of [parseRFC3339]: decimal digits only, and
    the value within [min..max]. *)
Definition parseUint (s : string) (min max : Z) : option Z :=
  x ← digitsVal s 0;
  if (x <? min) || (max <? x) then None else Some x.

Definition sub (s : string) (i j : nat) : string :=
  Strings.sliceTo (j - i) (Strings.sliceFrom i s).

Definition byteIs (s : string) (i : nat) (c : ascii) : bool :=
  match String.get i s with Some c' => Ascii.eqb c' c | None => false end.

(** Leading digits of [s], and what follows them. *)
Fixpoint spanDigits (s : string) : string * string :=
  match s with
  | EmptyString => ("", "")
  | String c rest =>
      if isDigit c then let '(ds, r) := spanDigits rest in (String c ds, r)
      else ("", s)
  end.

(** [parseNanoseconds]: at most nine fractional digits count, scaled to
    nanoseconds. *)
Definition parseNanoseconds (ds : string) : Z :=
  let ds9 := Strings.sliceTo 9 ds in
  default 0 (digitsVal ds9 0) * 10 ^ (9 - Z.of_nat (String.length ds9)).

(** The fractional second [".ddd"], when present, and the rest. *)
Definition parseFraction (s : string) : Z * string :=
  match s with
  | String "." ((String c _) as tl) =>
      if isDigit c then
        let '(ds, rest) := spanDigits tl in (parseNanoseconds ds, rest)
      else (0, s)
  | _ => (0, s)
  end.

(** The zone: ["Z"] ([None]), or sign, two-digit hours, colon, two-digit
    minutes (the offset in seconds). *)
Definition parseZone (s : string) : option (option Z) :=
  if String.eqb s "Z" then Some None
  else if negb (String.length s =? 6)%nat then None
  else
    hr ← parseUint (sub s 1 3) 0 23;
    mm ← parseUint (sub s 4 6) 0 59;
    if negb ((byteIs s 0 "-" || byteIs s 0 "+") && byteIs s 3 ":") then None
    else
      let zoneOffset := (hr * 60 + mm) * 60 in
      Some (Some (if byteIs s 0 "-" then - zoneOffset else zoneOffset)).

(** The location [parseRFC3339] gives a time read at the instant [u]
    with the zone offset [zoneOffset]: [Local] when that is the offset
    [Local] has at [u], else a fixed zone without a name. *)
Definition zoneLocation (local : Z -> Z) (u zoneOffset : Z) : Location :=
  if local u =? zoneOffset then Local zoneOffset else FixedZone "" zoneOffset.

(** [parseRFC3339(s, local)]: fixed columns for date and clock, then
    fraction and zone; the instant is the civil time minus the zone
    offset. [local] is the offset of the location [Local] at an instant. *)
Definition parseRFC3339 (local : Z -> Z) (s : string) : option Time :=
  if (String.length s <? 19)%nat then None
  else
    year ← parseUint (sub s 0 4) 0 9999;
    month ← parseUint (sub s 5 7) 1 12;
    day ← parseUint (sub s 8 10) 1 (daysIn month year);
    hour ← parseUint (sub s 11 13) 0 23;
    min ← parseUint (sub s 14 16) 0 59;
    sec ← parseUint (sub s 17 19) 0 59;
    if negb (byteIs s 4 "-" && byteIs s 7 "-" && byteIs s 10 "T"
             && byteIs s 13 ":" && byteIs s 16 ":") then None
    else
      let '(ns, rest) := parseFraction (Strings.sliceFrom 19 s) in
      z ← parseZone rest;
      let u := unixOfCivil (mkCivil year month day hour min sec) in
      Some (match z with
            | None => mkTime u ns UTC
            | Some zoneOffset =>
                mkTime (u - zoneOffset) ns (zoneLocation local (u - zoneOffset) zoneOffset)
            end).

(** *** The general layout parser, on the layout of RFC 3339 *)

Definition digitVal (c : ascii) : Z := Z.of_N (N_of_ascii c) - 48.

(** [getnum(s, fixed)]: one or two leading digits, two when [fixed]. *)
Definition getnum (s : string) (fixed : bool) : option (Z * string) :=
  match s with
  | String c0 rest =>
      if isDigit c0 then
        match rest with
        | String c1 rest' =>
            if isDigit c1 then Some (digitVal c0 * 10 + digitVal c1, rest')
            else if fixed then None else Some (digitVal c0, rest)
        | EmptyString => if fixed then None else Some (digitVal c0, rest)
        end
      else None
  | EmptyString => None
  end.

(** [skip(value, prefix)] for a one-byte prefix. *)
Definition skipByte (c : ascii) (s : string) : option string :=
  match s with
  | String c' rest => if Ascii.eqb c' c then Some rest else None
  | EmptyString => None
  end.

(** The fraction that may follow the seconds though the layout has none:
    a period or a comma and digits. *)
Definition layoutFraction (s : string) : Z * string :=
  match s with
  | String p ((String c _) as tl) =>
      if (Ascii.eqb p "." || Ascii.eqb p ",") && isDigit c then
        let '(ds, rest) := spanDigits tl in (parseNanoseconds ds, rest)
      else (0, s)
  | _ => (0, s)
  end.

(** The layout element [Z07:00]: ["Z"], or sign, hours, colon, minutes,
    the hours up to 24 and the minutes up to 60. *)
Definition layoutZone (s : string) : option (option Z * string) :=
  match s with
  | String "Z" rest => Some (None, rest)
  | _ =>
      if (String.length s <? 6)%nat then None
      else if negb (byteIs s 3 ":") then None
      else
        '(hr, _) ← getnum (sub s 1 3) true;
        '(mm, _) ← getnum (sub s 4 6) true;
        if (24 <? hr) || (60 <? mm) then None
        else
          let zoneOffset := (hr * 60 + mm) * 60 in
          if byteIs s 0 "+" then Some (Some zoneOffset, Strings.sliceFrom 6 s)
          else if byteIs s 0 "-" then Some (Some (- zoneOffset), Strings.sliceFrom 6 s)
          else None
  end.

(** [parse(time.RFC3339, s, UTC, local)], element by element: a year of
    four digits, month and day of two, an hour of one or two, minutes and
    seconds of two, the fraction, the zone; nothing may follow, and the
    day is held against the month at the end. *)
Definition parseLayoutRFC3339 (local : Z -> Z) (s : string) : option Time :=
  if (String.length s <? 4)%nat then None
  else
    year ← digitsVal (sub s 0 4) 0;
    s ← skipByte "-" (Strings.sliceFrom 4 s);
    '(month, s) ← getnum s true;
    if (month <=? 0) || (12 <? month) then None
    else
      s ← skipByte "-" s;
      '(day, s) ← getnum s true;
      s ← skipByte "T" s;
      '(hour, s) ← getnum s false;
      if 24 <=? hour then None
      else
        s ← skipByte ":" s;
        '(min, s) ← getnum s true;
        if 60 <=? min then None
        else
          s ← skipByte ":" s;
          '(sec, s) ← getnum s true;
          if 60 <=? sec then None
          else
            let '(ns, s) := layoutFraction s in
            '(z, s) ← layoutZone s;
            if negb (String.eqb s "") then None
            else if (day <? 1) || (daysIn month year <? day) then None
            else
              let u := unixOfCivil (mkCivil year month day hour min sec) in
              Some (match z with
                    | None => mkTime u ns UTC
                    | Some zoneOffset =>
                        mkTime (u - zoneOffset) ns
                               (zoneLocation local (u - zoneOffset) zoneOffset)
                    end).

(** [time.Parse(time.RFC3339, s)]: the strict parser [parseRFC3339] with
    [Local]; what it rejects goes to the general layout parser
    [parse(layout, value, UTC, Local)], which accepts more (a one-digit
    hour, a comma before the fraction) and is taken as it comes. *)
Definition Parse (local : Z -> Z) (parseLayout : string -> Result Time) (s : string)
  : Result Time :=
  match parseRFC3339 local s with
  | Some t => Ok t
  | None => parseLayout s
  end.

(** The location that [Parse] gives the text [Format] prints for [t]. *)
Definition parsedLocation (local : Z -> Z) (t : Time) : Location :=
  if offset t =? 0 then UTC else zoneLocation local (unixSec t) (offset t).

(** The timestamps that [FormatRFC3339] then [Parse] give back as they
    are: no fraction of a second, a year from 0 to 9999 in the time's own
    location, an offset of whole minutes within a day, and the location
    that [Parse] chooses for that offset (UTC at offset 0, [Local] where
    [Local] has the offset, else the fixed zone without a name). *)
Definition roundTrips (local : Z -> Z) (t : Time) : bool :=
  (nsec t =? 0)
  && (-62167219200 <=? unixSec t + offset t) && (unixSec t + offset t <? 253402300800)
  && (offset t mod 60 =? 0) && (-86400 <? offset t) && (offset t <? 86400)
  && match loc t, parsedLocation local t with
     | UTC, UTC => true
     | Local off, Local off' => off =? off'
     | FixedZone name off, FixedZone name' off' => String.eqb name name' && (off =? off')
     | _, _ => false
     end.

(** *** Exhaustive checks over a bounded range *)

(** [P] holds at [x], [x+1], ..., [fuel] values in all. *)
Fixpoint allFrom (fuel : nat) (x : Z) (P : Z -> bool) : bool :=
  match fuel with
  | O => true
  | S fuel' => if P x then allFrom fuel' (x + 1) P else false
  end.

(** One day of the era: the date is a valid one, [daysOfCivil] takes it
    back, and the year within the era is 400 only in the last January
    and February. *)
Definition checkDoe (doe : Z) : bool :=
  let '(y, m, d) := civilOfDoe doe in
  (0 <=? y) && (y <=? 400) && (1 <=? m) && (m <=? 12)
  && (1 <=? d) && (d <=? daysIn m y)
  && (daysOfCivil y m d =? doe - 719468)
  && (if doe <? 146037 then y <=? 399 else y =? 400).

Definition twoDigits (x : Z) : string :=
  String (Strconv.digitChar (x / 10)) (String (Strconv.digitChar (x mod 10)) "").

Definition fourDigits (x : Z) : string :=
  String (Strconv.digitChar (x / 1000))
    (String (Strconv.digitChar (x / 100 mod 10)) (twoDigits (x mod 100))).

End Time.

(* ===================================================================== *)
(** ** package net/url: [url.Values] *)
(* ===================================================================== *)

Module Url.

(** [type Values map[string][]string]; a nil map reads as the empty one. *)
Abbreviation Values := (gmap string (list string)).

(** [func (v Values) Add(key, value string)]:
    [v[key] = append(v[key], value)]. *)
Definition Add (v : Values) (key value : string) : Values :=
  <[key := default [] (v !! key) ++ [value]]> v.

(** [func (v Values) Set(key, value string)]: [v[key] = []string{value}]. *)
Definition Set_ (v : Values) (key value : string) : Values :=
  <[key := [value]]> v.

End Url.

(* ===================================================================== *)
(** ** The reflected data model *)
(* ===================================================================== *)

Inductive IntSize : Type := SzInt | Sz8 | Sz16 | Sz32 | Sz64.
Inductive FloatSize : Type := F32 | F64.

(** [v.Type().Bits()] ([int] and [uint] are 64 bits wide). *)
Definition intBits (sz : IntSize) : Z :=
  match sz with SzInt => 64 | Sz8 => 8 | Sz16 => 16 | Sz32 => 32 | Sz64 => 64 end.
Definition floatBits (sz : FloatSize) : Z :=
  match sz with F32 => 32 | F64 => 64 end.

(** Field and element types. [TNamed] is a type with a method set of its
    own, which the environment knows by the type's name: a defined type
    ([type Color string]) or a pointer to one (name ["*Color"], over
    [TOther "ptr"]). [TOther] is a type without methods whose kind the
    package has no case for (["map"], ["ptr"], ["struct"] other than
    [time.Time], ...). The dynamic value of a field of interface kind,
    whose methods [v.Interface()] would find, is not represented: such a
    field is [TOther "interface"] only as long as nothing of the package
    applies to what it holds. *)
Inductive GoType : Type :=
| TString
| TInt (sz : IntSize)
| TUint (sz : IntSize)
| TFloat (sz : FloatSize)
| TBool
| TTime
| TSlice (elem : GoType)
| TNamed (name : string) (under : GoType)
| TOther (kind : string).

(** Values. A float is the IEEE-754 binary64 bit pattern of [v.Float()];
    a slice is [None] when nil; of a value of another kind only its kind
    and whether it is the zero value are visible. *)
Inductive Value : Type :=
| VString (s : string)
| VInt (sz : IntSize) (i : Z)
| VUint (sz : IntSize) (u : Z)
| VFloat (sz : FloatSize) (f : Z)
| VBool (b : bool)
| VTime (t : Time.Time)
| VSlice (elem : GoType) (xs : option (list Value))
| VNamed (name : string) (v : Value)
| VOther (kind : string) (zero : bool).

(** [reflect.Zero(t)] / [reflect.New(t).Elem()]. *)
Fixpoint zeroValue (t : GoType) : Value :=
  match t with
  | TString => VString ""
  | TInt sz => VInt sz 0
  | TUint sz => VUint sz 0
  | TFloat sz => VFloat sz 0
  | TBool => VBool false
  | TTime => VTime Time.zero
  | TSlice elem => VSlice elem None
  | TNamed name under => VNamed name (zeroValue under)
  | TOther kind => VOther kind true
  end.

(** [v.Type()]. *)
Fixpoint typeOf (v : Value) : GoType :=
  match v with
  | VString _ => TString
  | VInt sz _ => TInt sz
  | VUint sz _ => TUint sz
  | VFloat sz _ => TFloat sz
  | VBool _ => TBool
  | VTime _ => TTime
  | VSlice elem _ => TSlice elem
  | VNamed name v' => TNamed name (typeOf v')
  | VOther kind _ => TOther kind
  end.

(** The value seen through its kind: defined types stripped. *)
Fixpoint underlying (v : Value) : Value :=
  match v with
  | VNamed _ v' => underlying v'
  | _ => v
  end.

(** Store [u] as the new underlying value of [v], keeping [v]'s type. *)
Fixpoint rewrap (v u : Value) : Value :=
  match v with
  | VNamed name v' => VNamed name (rewrap v' u)
  | _ => u
  end.

(** [v.Kind().String()]. *)
Definition kindName (v : Value) : string :=
  match underlying v with
  | VString _ => "string"
  | VInt SzInt _ => "int" | VInt Sz8 _ => "int8" | VInt Sz16 _ => "int16"
  | VInt Sz32 _ => "int32" | VInt Sz64 _ => "int64"
  | VUint SzInt _ => "uint" | VUint Sz8 _ => "uint8" | VUint Sz16 _ => "uint16"
  | VUint Sz32 _ => "uint32" | VUint Sz64 _ => "uint64"
  | VFloat F32 _ => "float32" | VFloat F64 _ => "float64"
  | VBool _ => "bool"
  | VTime _ => "struct"
  | VSlice _ _ => "slice"
  | VNamed _ _ => "invalid"
  | VOther kind _ => kind
  end.

(** [v.IsZero()]: empty string, 0, [false], nil slice, the zero struct.
    A float is zero when it compares equal to 0 (either sign). *)
Definition IsZero (v : Value) : bool :=
  match underlying v with
  | VString s => String.eqb s ""
  | VInt _ i => i =? 0
  | VUint _ u => u =? 0
  | VFloat _ f => (f =? 0) || (f =? 2 ^ 63)
  | VBool b => negb b
  | VTime t => Time.IsZero t
  | VSlice _ xs => match xs with None => true | Some _ => false end
  | VNamed _ _ => false
  | VOther _ zero => zero
  end.

(** A struct tag as its key/value pairs, e.g. [json:"a" query:"b,omitzero"]. *)
Definition StructTag : Type := list (string * string).

(** [tag.Get(key)]: the value under [key], or [""]. *)
Fixpoint Tag_Get (tag : StructTag) (key : string) : string :=
  match tag with
  | [] => ""
  | (k, v) :: rest => if String.eqb k key then v else Tag_Get rest key
  end.

(** One field of a struct value: [reflect.StructField] ([Name], [Tag]) with
    the field's [reflect.Value]. *)
Record Field : Type := mkField { Name : string; Tag : StructTag; fv : Value }.

Definition setFv (f : Field) (v : Value) : Field := mkField (Name f) (Tag f) v.

(** A struct value: its fields in declaration order. *)
Definition Struct : Type := list Field.

(** A field is exported when the first character of its name is an
    upper-case letter ([unicode.IsUpper] of the first rune). Only exported
    fields can be read through [Interface()] or set. *)
Definition exported `{CaseTables} (f : Field) : bool :=
  match Name f with
  | EmptyString => false
  | String _ _ => Unicode.IsUpper (Utf8.DecodeRuneInString (Name f)).1
  end.

(** [fv.IsValid() && fv.CanInterface()] for a struct field. *)
Definition CanInterface `{CaseTables} (f : Field) : bool := exported f.

(** [fv.CanSet()] for a field of an addressable struct. *)
Definition CanSet `{CaseTables} (f : Field) : bool := exported f.

(** What [Marshal] and [Unmarshal] are handed as [any]: a struct, a non-nil
    pointer to one, or a value or pointer of another type (named [ty]). *)
Inductive Any : Type :=
| AStruct (r : Struct)
| APtrStruct (r : Struct)
| AOther (ty : string)
| APtrOther (ty : string).

(* ===================================================================== *)
(** ** What the package takes from outside *)
(* ===================================================================== *)

Inductive Receiver : Type := ByValue | ByPointer.

(** What the package takes from the Go distribution and from the program
    around it: the case tables of [unicode]; the offset of [time.Local]
    at an instant (the host's time zone database) and the general layout
    parser that [time.Parse] falls back to (the environments of the
    examples take [Time.parseLayoutRFC3339] for it); the floating-point text
    conversion of [strconv]; and the method sets of the types in play:
    which of them implement [Marshaler] or [Unmarshaler], on the type
    itself ([ByValue]) or on its pointer only ([ByPointer]), and what the
    methods do. [UnmarshalQueryParam] returns the new state of what the
    receiver refers to, with its error. *)
Class Env : Type := {
  caseTables :: CaseTables;
  LocalOffset : Z -> Z;
  ParseLayout : string -> Result Time.Time;
  FormatFloat : Z -> string;
  ParseFloat : string -> Z -> Result Z;
  marshalerOf : string -> option Receiver;
  MarshalQueryParam : string -> Value -> Result string;
  unmarshalerOf : string -> option Receiver;
  UnmarshalQueryParam : string -> Value -> string -> Value * option Error
}.

(* ===================================================================== *)
(** ** package queryparams *)
(* ===================================================================== *)

Definition structTagName : string := "query".

(** [func parseTag(tag string) (string, bool)]. *)
Definition parseTag (tag : string) : string * bool :=
  if String.eqb tag "" then ("", false)
  else
    let parts := Strings.Split tag "," in
    let name := hd "" parts in
    let omitzero :=
      fold_left (fun acc p => if String.eqb p "omitzero" then true else acc)
                (tl parts) false in
    (name, omitzero).

Section Codec.
Context `{E : Env}.

(** [v.Kind() != reflect.Ptr]. *)
Definition notPtr (v : Value) : bool := negb (String.eqb (kindName v) "ptr").

(** [func implementsMarshaler(v reflect.Value) (Marshaler, bool)]: the
    value as it is, else its address when it is no pointer and has one.
    The result is the receiver (type and value) the method will run on. *)
Definition implementsMarshaler (addr : bool) (v : Value) : option (string * Value) :=
  match v with
  | VNamed name u =>
      match marshalerOf name with
      | Some ByValue => Some (name, u)
      | Some ByPointer => if notPtr v && addr then Some (name, u) else None
      | None => None
      end
  | _ => None
  end.

(** [func implementsUnmarshaler(v reflect.Value) (Unmarshaler, bool)]. *)
Definition implementsUnmarshaler (addr : bool) (v : Value)
  : option (string * Receiver * Value) :=
  match v with
  | VNamed name u =>
      match unmarshalerOf name with
      | Some ByValue => Some (name, ByValue, u)
      | Some ByPointer => if notPtr v && addr then Some (name, ByPointer, u) else None
      | None => None
      end
  | _ => None
  end.

(** A value of this kind shares what it refers to with its copies (a map,
    a pointer, a slice, a struct that may hold one): a method called on a
    copy can change what the original shows. *)
Definition sharesReferent (v : Value) : bool :=
  match underlying v with
  | VOther _ _ | VSlice _ _ => true
  | _ => false
  end.

(** [func toString(v reflect.Value) (string, error)]. *)
Definition toString (addr : bool) (v : Value) : Result string :=
  match implementsMarshaler addr v with
  | Some (name, u) => MarshalQueryParam name u
  | None =>
      match underlying v with
      | VString s => Ok s
      | VInt _ i => Ok (Strconv.FormatInt i)
      | VUint _ u => Ok (Strconv.FormatUint u)
      | VFloat _ f => Ok (FormatFloat f)
      | VBool b => Ok (Strconv.FormatBool b)
      | _ =>
          match v with
          | VTime t => Ok (Time.FormatRFC3339 t)
          | _ => Err (ErrUnsupportedType (kindName v))
          end
      end
  end.

(** [func setFromString(v reflect.Value, s string) error]: the value [v]
    holds afterwards, and the error. A method found on the value as it is
    runs on a copy of it: what it stores is lost, except through what the
    copy shares with the original. *)
Definition setFromString (addr : bool) (v : Value) (s : string) : Value * option Error :=
  match implementsUnmarshaler addr v with
  | Some (name, recv, u) =>
      let '(u', err) := UnmarshalQueryParam name u s in
      (match recv with
       | ByPointer => VNamed name u'
       | ByValue => if sharesReferent u then VNamed name u' else v
       end, err)
  | None =>
      match underlying v with
      | VString _ => (rewrap v (VString s), None)
      | VInt sz _ =>
          match Strconv.ParseInt s (intBits sz) with
          | Err e => (v, Some e)
          | Ok i => (rewrap v (VInt sz i), None)
          end
      | VUint sz _ =>
          match Strconv.ParseUint s (intBits sz) with
          | Err e => (v, Some e)
          | Ok u => (rewrap v (VUint sz u), None)
          end
      | VFloat sz _ =>
          match ParseFloat s (floatBits sz) with
          | Err e => (v, Some e)
          | Ok f => (rewrap v (VFloat sz f), None)
          end
      | VBool _ =>
          match Strconv.ParseBool s with
          | Err e => (v, Some e)
          | Ok b => (rewrap v (VBool b), None)
          end
      | _ =>
          match v with
          | VTime _ =>
              match Time.Parse LocalOffset ParseLayout s with
              | Err e => (v, Some e)
              | Ok parsed => (VTime parsed, None)
              end
          | _ => (v, Some (ErrUnsupportedKind (kindName v)))
          end
      end
  end.

(** [fv.Kind() == reflect.Slice]: the element type and the elements. *)
Definition asSlice (v : Value) : option (GoType * list Value) :=
  match underlying v with
  | VSlice elem xs => Some (elem, default [] xs)
  | _ => None
  end.

(** The inner loop of [Marshal] over the elements of a slice field
    (elements of a slice are addressable). *)
Fixpoint marshalElems (name : string) (xs : list Value) (uv : Url.Values)
  : Url.Values * option Error :=
  match xs with
  | [] => (uv, None)
  | x :: rest =>
      match toString true x with
      | Err e => (uv, Some e)
      | Ok s => marshalElems name rest (Url.Add uv name s)
      end
  end.

(** The body of the loop of [Marshal] for one field: the map afterwards,
    and the error when the function returns from inside the body. *)
Definition marshalField (addr : bool) (uv : Url.Values) (f : Field)
  : Url.Values * option Error :=
  let '(name, omitzero) := parseTag (Tag_Get (Tag f) structTagName) in
  if String.eqb name "-" then (uv, None)
  else
    let name := if String.eqb name "" then Strings.ToLower (Name f) else name in
    if negb (CanInterface f) then (uv, None)
    else if omitzero && IsZero (fv f) then (uv, None)
    else
      match asSlice (fv f) with
      | Some (_, xs) => marshalElems name xs uv
      | None =>
          match toString addr (fv f) with
          | Err e => (uv, Some e)
          | Ok s => (Url.Set_ uv name s, None)
          end
      end.

(** [for i := 0; i < t.NumField(); i++ { ... }] of [Marshal]. *)
Fixpoint marshalFields (addr : bool) (fs : list Field) (uv : Url.Values)
  : Url.Values * option Error :=
  match fs with
  | [] => (uv, None)
  | f :: rest =>
      match marshalField addr uv f with
      | (uv', Some e) => (uv', Some e)
      | (uv', None) => marshalFields addr rest uv'
      end
  end.

(** [func Marshal(src any) (url.Values, error)]. The fields of a struct
    passed by value are not addressable, those behind a pointer are. *)
Definition Marshal (src : Any) : Url.Values * option Error :=
  match src with
  | AStruct r => marshalFields false r ∅
  | APtrStruct r => marshalFields true r ∅
  | AOther ty | APtrOther ty => (∅, Some (ErrNotStruct ty))
  end.

(** The loop of [Unmarshal] over the strings of a slice field: each string
    is set into a fresh zero element, which is appended. *)
Fixpoint unmarshalElems (sliceType : GoType) (strs : list string) (newSlice : list Value)
  : Result (list Value) :=
  match strs with
  | [] => Ok newSlice
  | s :: rest =>
      match setFromString true (zeroValue sliceType) s with
      | (_, Some e) => Err e
      | (elem, None) => unmarshalElems sliceType rest (newSlice ++ [elem])
      end
  end.

(** The body of the loop of [Unmarshal] for one field: the field
    afterwards, and the error when the function returns from the body. *)
Definition unmarshalField (values : Url.Values) (f : Field) : Field * option Error :=
  let '(name, _) := parseTag (Tag_Get (Tag f) structTagName) in
  if String.eqb name "-" then (f, None)
  else
    let name :=
      if String.eqb name ""
      then Strings.ToLower (Strings.sliceTo 1 (Name f)) +:+ Strings.sliceFrom 1 (Name f)
      else name in
    match values !! name with
    | None | Some [] => (f, None)
    | Some ((s0 :: _) as strs) =>
        if negb (CanSet f) then (f, None)
        else
          match asSlice (fv f) with
          | Some (sliceType, _) =>
              match unmarshalElems sliceType strs [] with
              | Err e => (f, Some (ErrField name e))
              | Ok newSlice =>
                  (setFv f (rewrap (fv f) (VSlice sliceType (Some newSlice))), None)
              end
          | None =>
              let '(v', err) := setFromString true (fv f) s0 in
              (setFv f v', ErrField name <$> err)
          end
    end.

(** [for i := 0; i < t.NumField(); i++ { ... }] of [Unmarshal]: the
    fields as the call leaves them, and the error it returns. *)
Fixpoint unmarshalFields (values : Url.Values) (fs : list Field)
  : list Field * option Error :=
  match fs with
  | [] => ([], None)
  | f :: rest =>
      match unmarshalField values f with
      | (f', Some e) => (f' :: rest, Some e)
      | (f', None) =>
          let '(rest', err) := unmarshalFields values rest in
          (f' :: rest', err)
      end
  end.

(** Modelled from the spec: [ptr.EnforcePtr] of the go-util module, which
    is not part of this repository's sources. "Destination must be a
    non-nil reference to a record; fails with TypeError otherwise": the
    pointee of a pointer, an error for anything else. *)
Definition EnforcePtr (out : Any) : Result Any :=
  match out with
  | APtrStruct r => Ok (AStruct r)
  | APtrOther ty => Ok (AOther ty)
  | AStruct _ => Err (ErrNotPointer "struct")
  | AOther ty => Err (ErrNotPointer ty)
  end.

(** [func Unmarshal(values url.Values, out any) error]: what [out] refers
    to afterwards, and the error. *)
Definition Unmarshal (values : Url.Values) (out : Any) : Any * option Error :=
  match EnforcePtr out with
  | Err e => (out, Some e)
  | Ok (AStruct r) =>
      let '(r', err) := unmarshalFields values r in (APtrStruct r', err)
  | Ok (AOther ty) => (out, Some (ErrNotStruct ty))
  | Ok _ => (out, Some (ErrNotStruct "ptr"))
  end.

End Codec.

(** A struct of the same type with every field at its zero value: what
    [new(T)] points to. *)
Definition zeroField (f : Field) : Field := setFv f (zeroValue (typeOf (fv f))).
Definition zeroStruct (r : Struct) : Struct := map zeroField r.

(** ** Vocabulary for the statements *)

(** The name and the [omitzero] flag [parseTag] reads from a field's tag. *)
Definition tagName (f : Field) : string := (parseTag (Tag_Get (Tag f) structTagName)).1.
Definition tagOmitzero (f : Field) : bool := (parseTag (Tag_Get (Tag f) structTagName)).2.

(** The key [Marshal] resolves for a field ([None]: skipped by its tag). *)
Definition marshalKey `{CaseTables} (f : Field) : option string :=
  if String.eqb (tagName f) "-" then None
  else Some (if String.eqb (tagName f) "" then Strings.ToLower (Name f) else tagName f).

(** The key [Unmarshal] resolves for a field ([None]: skipped by its tag). *)
Definition unmarshalKey `{CaseTables} (f : Field) : option string :=
  if String.eqb (tagName f) "-" then None
  else Some (if String.eqb (tagName f) ""
             then Strings.ToLower (Strings.sliceTo 1 (Name f)) +:+ Strings.sliceFrom 1 (Name f)
             else tagName f).

(** A struct handed to the package by value or through a pointer. *)
Definition anyStruct (addr : bool) (r : Struct) : Any :=
  if addr then APtrStruct r else AStruct r.

(** [uv.Add(name, s)] for each [s] of [ss], in order. *)
Definition addAll (uv : Url.Values) (name : string) (ss : list string) : Url.Values :=
  foldl (fun u s => Url.Add u name s) uv ss.

(** How the conversion of one field fails in [Marshal]: a scalar whose
    [toString] fails, or a slice with a first element whose [toString]
    fails, after the elements before it gave the strings [added]. *)
Inductive marshalFails `{E : Env} (addr : bool) (f : Field) : list string -> Error -> Prop :=
| scalar_fails e :
    asSlice (fv f) = None ->
    toString addr (fv f) = Err e ->
    marshalFails addr f [] e
| element_fails ty good bad rest added e :
    asSlice (fv f) = Some (ty, good ++ bad :: rest) ->
    Forall2 (fun x s => toString true x = Ok s) good added ->
    toString true bad = Err e ->
    marshalFails addr f added e.

(** How the conversion of one field fails in [Unmarshal], given the strings
    under its key: a scalar whose [setFromString] on the first string fails
    (leaving the value [v']), or a slice with a first string that fails
    after those before it were set into fresh elements. The result is the
    field afterwards and the underlying error. *)
Inductive unmarshalFails `{E : Env} (f : Field) : list string -> Field -> Error -> Prop :=
| scalar_decode_fails s0 strs v' cause :
    asSlice (fv f) = None ->
    setFromString true (fv f) s0 = (v', Some cause) ->
    unmarshalFails f (s0 :: strs) (setFv f v') cause
| element_decode_fails ty old good bad rest v' cause :
    asSlice (fv f) = Some (ty, old) ->
    Forall (fun s => (setFromString true (zeroValue ty) s).2 = None) good ->
    setFromString true (zeroValue ty) bad = (v', Some cause) ->
    unmarshalFails f (good ++ bad :: rest) f cause.

(** Two fields that differ at most in the options after the tag name
    (such as [omitzero]) and in tag keys other than [query]. *)
Definition sameUpToOptions (f g : Field) : Prop :=
  Name f = Name g /\ tagName f = tagName g /\ fv f = fv g.


(** *** Records that survive [Marshal] then [Unmarshal] *)

#[global] Instance GoType_eq_dec : EqDecision GoType.
Proof.
  unfold EqDecision, Decision.
  decide equality; first [apply string_dec | decide equality].
Defined.

Definition intInRange (sz : IntSize) (i : Z) : bool :=
  (- 2 ^ (intBits sz - 1) <=? i) && (i <? 2 ^ (intBits sz - 1)).

Definition uintInRange (sz : IntSize) (u : Z) : bool :=
  (0 <=? u) && (u <? 2 ^ intBits sz).

(** A value of a built-in string, integer, float or boolean type that its
    text form gives back: integers within their type's range (as every Go
    value is), floats that the float codec of the environment returns
    bit for bit. *)
Definition basicRoundTrips `{E : Env} (v : Value) : bool :=
  match v with
  | VString _ | VBool _ => true
  | VInt sz i => intInRange sz i
  | VUint sz u => uintInRange sz u
  | VFloat sz f =>
      match ParseFloat (FormatFloat f) (floatBits sz) with
      | Ok f' => f' =? f
      | Err _ => false
      end
  | _ => false
  end.

(** A defined type with neither hook. *)
Definition noHooks `{E : Env} (name : string) : bool :=
  match marshalerOf name, unmarshalerOf name with
  | None, None => true
  | _, _ => false
  end.

(** A scalar that its text form gives back: a basic value, a basic value
    of a defined type without hooks, or a timestamp as in
    [Time.roundTrips]. *)
Definition scalarRoundTrips `{E : Env} (v : Value) : bool :=
  match v with
  | VTime t => Time.roundTrips LocalOffset t
  | VNamed name u => noHooks name && basicRoundTrips u
  | _ => basicRoundTrips v
  end.

(** Negative zero is a zero for [omitzero], but not the zero value. *)
Definition negativeZero (v : Value) : bool :=
  match underlying v with
  | VFloat _ f => f =? 2 ^ 63
  | _ => false
  end.

(** A field that comes back: exported, written and read under one key, and
    either a scalar as above (not a negative zero under [omitzero]) or a
    list of an unnamed slice type, nil or non-empty, of such scalars of
    the element type. *)
Definition fieldRoundTrips `{E : Env} (f : Field) : bool :=
  exported f
  && match marshalKey f, unmarshalKey f with
     | Some k, Some k' => String.eqb k k'
     | _, _ => false
     end
  && match fv f with
     | VSlice ty None => true
     | VSlice ty (Some xs) =>
         match xs with [] => false | _ => true end
         && forallb (fun x => bool_decide (typeOf x = ty) && scalarRoundTrips x) xs
     | v => scalarRoundTrips v && negb (tagOmitzero f && negativeZero v)
     end.


(** *** Vocabulary for the further properties *)

(** The name starts with an ASCII byte, which is then its first
    character. *)
Definition asciiInitial (name : string) : bool :=
  match name with
  | EmptyString => true
  | String c _ => Utf8.byteOf c <? Utf8.RuneSelf
  end.

(** The byte [c] occurs in [s]. *)
Fixpoint hasByte (c : ascii) (s : string) : bool :=
  match s with
  | EmptyString => false
  | String c' rest => Ascii.eqb c' c || hasByte c rest
  end.

(** The struct an [Any] is or points to. *)
Definition structOf (a : Any) : Struct :=
  match a with
  | AStruct r | APtrStruct r => r
  | AOther _ | APtrOther _ => []
  end.

(** The values [Marshal] hands to [toString] for a field: the elements of
    a slice, the value itself otherwise. *)
Definition fieldValues (f : Field) : list Value :=
  match asSlice (fv f) with
  | Some (_, xs) => xs
  | None => [fv f]
  end.

(** The type of the value has a [MarshalQueryParam] method (on either
    receiver); it has one on the pointer receiver only. *)
Definition hasMarshaler `{E : Env} (v : Value) : bool :=
  match v with
  | VNamed name _ => match marshalerOf name with Some _ => true | None => false end
  | _ => false
  end.

Definition hasPointerMarshaler `{E : Env} (v : Value) : bool :=
  match v with
  | VNamed name _ =>
      match marshalerOf name with Some ByPointer => true | _ => false end
  | _ => false
  end.

(** The type of the value has an [UnmarshalQueryParam] method. *)
Definition hasUnmarshaler `{E : Env} (v : Value) : bool :=
  match v with
  | VNamed name _ => match unmarshalerOf name with Some _ => true | None => false end
  | _ => false
  end.

(** Whether [Marshal] skips the field before looking at its value's kind. *)
Definition marshalSkips `{CaseTables} (f : Field) : bool :=
  match marshalKey f with
  | None => true
  | Some _ => negb (CanInterface f) || (tagOmitzero f && IsZero (fv f))
  end.

(** The key under which [Marshal] writes a field, if it writes it. *)
Definition writtenKey `{CaseTables} (f : Field) : option string :=
  if marshalSkips f then None else marshalKey f.

(** No key of the map holds an empty list. *)
Definition entriesNonEmpty (uv : gmap string (list string)) : Prop :=
  forall k strs, uv !! k = Some strs -> strs <> [].

(** An integer value within the range of its type (as every Go value is);
    values of other kinds count as fitting. *)
Definition fits (v : Value) : bool :=
  match underlying v with
  | VInt sz i => intInRange sz i
  | VUint sz u => uintInRange sz u
  | _ => true
  end.

Definition fieldFits (f : Field) : bool := forallb fits (fieldValues f).

(** [Unmarshal] decodes the field by its kind: neither the type of a
    scalar field nor the element type of a list field has an
    [UnmarshalQueryParam] method. *)
Definition decodedByKind `{E : Env} (f : Field) : bool :=
  match asSlice (fv f) with
  | Some (ty, _) => negb (hasUnmarshaler (zeroValue ty))
  | None => negb (hasUnmarshaler (fv f))
  end.

(** The kinds whose text form [strconv] reads back exactly: string,
    signed and unsigned integers, boolean. *)
Definition exactKind (v : Value) : bool :=
  match underlying v with
  | VString _ | VInt _ _ | VUint _ _ | VBool _ => true
  | _ => false
  end.

(** The kind switch of [setFromString]: the new underlying value that the
    text [s] gives a value of the kind of [v], or the error. *)
Definition parseAs `{E : Env} (v : Value) (s : string) : Result Value :=
  match underlying v with
  | VString _ => Ok (VString s)
  | VInt sz _ =>
      match Strconv.ParseInt s (intBits sz) with
      | Ok i => Ok (VInt sz i)
      | Err e => Err e
      end
  | VUint sz _ =>
      match Strconv.ParseUint s (intBits sz) with
      | Ok u => Ok (VUint sz u)
      | Err e => Err e
      end
  | VFloat sz _ =>
      match ParseFloat s (floatBits sz) with
      | Ok f => Ok (VFloat sz f)
      | Err e => Err e
      end
  | VBool _ =>
      match Strconv.ParseBool s with
      | Ok b => Ok (VBool b)
      | Err e => Err e
      end
  | _ =>
      match v with
      | VTime _ =>
          match Time.Parse LocalOffset ParseLayout s with
          | Ok parsed => Ok (VTime parsed)
          | Err e => Err e
          end
      | _ => Err (ErrUnsupportedKind (kindName v))
      end
  end.

(* ===================================================================== *)
(** ** A sample environment and sample records *)
(* ===================================================================== *)

(** The case tables on Latin-1, where all the letters of the examples
    are: the capitals U+00C0 to U+00DE, without the multiplication sign
    U+00D7, have their small letter 32 places up; elsewhere the sample
    tables change nothing. *)
Definition latin1Capital (r : Z) : bool :=
  (192 <=? r) && (r <=? 222) && negb (r =? 215).

Definition latin1Tables : CaseTables := {|
  toLowerTable r := if latin1Capital r then r + 32 else r;
  isUpperTable r := latin1Capital r
|}.

(** The layout parser of the examples. *)
Definition sampleParseLayout (local : Z -> Z) (s : string) : Result Time.Time :=
  match Time.parseLayoutRFC3339 local s with
  | Some t => Ok t
  | None => Err (ErrTimeParse s)
  end.

(** An environment for the examples. The host is one hour east of UTC all
    year. The float codec knows the three floats the examples use (0,
    1 and 1.5, by their bit patterns). There is one defined type with
    hooks: [Level], an [int] that marshals (value receiver) to ["low"] or
    ["high"] and unmarshals (pointer receiver) from them, and fails on
    anything else. *)
Definition sampleEnv : Env := {|
  caseTables := latin1Tables;
  LocalOffset u := 3600;
  ParseLayout := sampleParseLayout (fun u => 3600);
  FormatFloat f :=
    if f =? 0 then "0"
    else if f =? 4607182418800017408 then "1"
    else if f =? 4609434218613702656 then "1.5"
    else "NaN";
  ParseFloat s bitSize :=
    if String.eqb s "0" then Ok 0
    else if String.eqb s "1" then Ok 4607182418800017408
    else if String.eqb s "1.5" then Ok 4609434218613702656
    else Err (ErrNum "ParseFloat" s ErrSyntax);
  marshalerOf name := if String.eqb name "Level" then Some ByValue else None;
  MarshalQueryParam name v :=
    match v with
    | VInt _ 0 => Ok "low"
    | VInt _ 1 => Ok "high"
    | _ => Err (ErrCustom "unknown level")
    end;
  unmarshalerOf name := if String.eqb name "Level" then Some ByPointer else None;
  UnmarshalQueryParam name v s :=
    if String.eqb s "low" then (VInt SzInt 0, None)
    else if String.eqb s "high" then (VInt SzInt 1, None)
    else (v, Some (ErrCustom "unknown level"))
|}.

(** [2024-01-02T15:04:05Z], and the same instant half a second later. *)
Definition tsWhole : Time.Time := Time.mkTime 1704207845 0 Time.UTC.
Definition tsHalf : Time.Time := Time.mkTime 1704207845 500000000 Time.UTC.

(** [2000-02-28T18:30:00-05:30], in the fixed zone without a name. *)
Definition tsZoned : Time.Time := Time.mkTime 951782400 0 (Time.FixedZone "" (-19800)).

(** The same instant and offset in a zone of the time zone database. *)
Definition tsNamed : Time.Time :=
  Time.mkTime 951782400 0 (Time.LoadLocation "Asia/Kolkata" 19800).

(** The fields of the sample records. [Name] and [Count] are the record of
    the specification's scenario. *)
Definition fName (s : string) : Field := mkField "Name" [("query", "name")] (VString s).
Definition fCount (n : Z) : Field :=
  mkField "Count" [("query", "count,omitzero")] (VInt SzInt n).
Definition fCountPlain (n : Z) : Field :=
  mkField "Count" [("query", "count")] (VInt SzInt n).

(** Opted out with ["-"]. *)
Definition fSecret (s : string) : Field := mkField "Secret" [("query", "-")] (VString s).

(** No [query] tag: the key is derived from the declared name. *)
Definition fUserName (s : string) : Field := mkField "UserName" [("json", "user")] (VString s).

(** A second field that resolves to ["name"]. *)
Definition fAlias (s : string) : Field := mkField "Alias" [("query", "name")] (VString s).

(** Not exported. *)
Definition fHidden (s : string) : Field := mkField "hidden" [("query", "hidden")] (VString s).

(** An untagged field with a capital outside ASCII at the end of its
    name (U+00C9, the bytes 195 and 137 in UTF-8). *)
Definition fNameE (s : string) : Field :=
  mkField (String "N" (String "a" (String "m" (String "e" (String "195" (String "137" ""))))))
          [] (VString s).

(** An exported field without a tag whose name starts with a capital
    outside ASCII, the same U+00C9. *)
Definition fEdition (s : string) : Field :=
  mkField (String "195" (String "137" "dition")) [] (VString s).

(** What [Unmarshal] takes for the key of [fEdition]: U+FFFD (the bytes
    239, 191 and 189), the second byte of the capital, and the rest. *)
Definition brokenEditionKey : string :=
  String "239" (String "191" (String "189" (String "137" "dition"))).

(** A list of [int]; [None] is the nil list. *)
Definition fTags (xs : option (list Z)) : Field :=
  mkField "Tags" [("json", "tags"); ("query", "tags")]
          (VSlice (TInt SzInt) (map (VInt SzInt) <$> xs)).

(** A list of the defined type [Level], which has hooks in [sampleEnv]. *)
Definition fLevels (xs : list Z) : Field :=
  mkField "Levels" [("query", "levels")]
          (VSlice (TNamed "Level" (TInt SzInt))
                  (Some (map (fun x => VNamed "Level" (VInt SzInt x)) xs))).

(** A field of a kind the package has no case for. *)
Definition fMeta : Field := mkField "Meta" [("query", "meta")] (VOther "map" false).

Definition fWhen (t : Time.Time) : Field := mkField "When" [("query", "when")] (VTime t).
Definition fScore (bits : Z) : Field := mkField "Score" [("query", "score")] (VFloat F64 bits).
Definition fActive (b : bool) : Field := mkField "Active" [("query", ",omitzero")] (VBool b).



(** The sample record that comes back. *)
Definition rtRecord : Struct :=
  [fName "x"; fCount 0; fTags (Some [3; 1; 2]); fWhen tsZoned;
   fScore 4609434218613702656; fActive true].

(** A second environment, with hooks where they have no effect: [Mode], a
    string whose [UnmarshalQueryParam] has a value receiver (it upper-cases
    nothing and stores its input in its own copy), and [Modes], a slice of
    strings whose [MarshalQueryParam] would join the elements. *)
Definition modeEnv : Env := {|
  caseTables := latin1Tables;
  LocalOffset u := 0;
  ParseLayout := sampleParseLayout (fun u => 0);
  FormatFloat f := "0";
  ParseFloat s bitSize := Ok 0;
  marshalerOf name := if String.eqb name "Modes" then Some ByValue else None;
  MarshalQueryParam name v := Ok "joined";
  unmarshalerOf name := if String.eqb name "Mode" then Some ByValue else None;
  UnmarshalQueryParam name v s := (VString s, None)
|}.

Definition fMode (s : string) : Field :=
  mkField "Mode" [("query", "mode")] (VNamed "Mode" (VString s)).

Definition fModes (xs : list string) : Field :=
  mkField "Modes" [("query", "modes")]
          (VNamed "Modes" (VSlice TString (Some (map VString xs)))).

(** The same field with the plain type [[]string]. *)
Definition fModesPlain (xs : list string) : Field :=
  mkField "Modes" [("query", "modes")] (VSlice TString (Some (map VString xs))).

(* ===================================================================== *)
(** ** Facts about package strconv *)
(* ===================================================================== *)

Section StrconvFacts.
Import Strconv.

Lemma N_of_digitChar d : 0 <= d <= 9 -> N_of_ascii (digitChar d) = (48 + Z.to_N d)%N.
Proof. intros H. unfold digitChar. apply N_ascii_embedding. lia. Qed.

(** One digit more for the loop of [ParseUint], when the value fits. *)
Lemma parseUintLoop_digit maxVal d rest n :
  0 <= d <= 9 -> 0 <= n -> n * 10 + d <= maxVal -> maxVal <= maxUint64 ->
  parseUintLoop maxVal (String (digitChar d) rest) n
  = parseUintLoop maxVal rest (n * 10 + d).
Proof.
  intros Hd Hn Hfit Hmax. unfold maxUint64 in *. simpl.
  rewrite N_of_digitChar by done.
  replace ((48 <=? 48 + Z.to_N d)%N && (48 + Z.to_N d <=? 57)%N) with true
    by (symmetry; apply andb_true_iff; split; apply N.leb_le; lia).
  replace (Z.of_N (48 + Z.to_N d) - 48) with d by lia.
  change (maxUint64 `div` 10 + 1) with 1844674407370955162.
  destruct (Z.leb_spec 1844674407370955162 n); [lia|].
  rewrite (Z.mod_small (n * 10)) by lia.
  rewrite (Z.mod_small (n * 10 + d)) by lia.
  destruct (Z.ltb_spec (n * 10 + d) (n * 10)); [lia|].
  destruct (Z.ltb_spec maxVal (n * 10 + d)); [lia|]. done.
Qed.

Lemma parse_formatDigits maxVal fuel : forall u acc,
  0 <= u < 10 ^ Z.of_nat fuel -> u <= maxVal -> maxVal <= maxUint64 ->
  parseUintLoop maxVal (formatDigits fuel u acc) 0 = parseUintLoop maxVal acc u.
Proof.
  induction fuel as [|fuel IH]; intros u acc Hu Hfit Hmax.
  - simpl in *. by replace u with 0 by lia.
  - simpl formatDigits. destruct (Z.ltb_spec u 10).
    + rewrite parseUintLoop_digit by lia. f_equal.
    + assert (10 ^ Z.of_nat (S fuel) = 10 * 10 ^ Z.of_nat fuel) as Hpow.
      { rewrite Nat2Z.inj_succ, Z.pow_succ_r by lia. done. }
      pose proof (Z.div_mod u 10 ltac:(lia)).
      pose proof (Z.mod_pos_bound u 10 ltac:(lia)).
      rewrite IH by lia.
      rewrite parseUintLoop_digit by lia. f_equal. lia.
Qed.

(** What [formatDigits] prints starts with a digit. *)
Lemma formatDigits_head fuel : forall u acc,
  0 <= u ->
  (0 < fuel)%nat \/ (exists d r, 0 <= d <= 9 /\ acc = String (digitChar d) r) ->
  exists d r, 0 <= d <= 9 /\ formatDigits fuel u acc = String (digitChar d) r.
Proof.
  induction fuel as [|fuel IH]; intros u acc Hu Hacc.
  - destruct Hacc as [?|?]; [lia|done].
  - simpl. destruct (Z.ltb_spec u 10).
    + exists u, acc. split; [lia|done].
    + pose proof (Z.mod_pos_bound u 10 ltac:(lia)).
      apply IH; [apply Z.div_pos; lia|].
      right. exists (u mod 10), acc. split; [lia|done].
Qed.

Lemma FormatUint_head u :
  0 <= u -> exists d r, 0 <= d <= 9 /\ FormatUint u = String (digitChar d) r.
Proof. intros. apply formatDigits_head; [done|left; lia]. Qed.

Lemma ParseUint_raw_FormatUint u bitSize :
  0 < bitSize <= 64 -> 0 <= u < 2 ^ bitSize ->
  ParseUint_raw (FormatUint u) bitSize = (u, None).
Proof.
  intros Hb Hu. unfold ParseUint_raw.
  destruct (FormatUint_head u ltac:(lia)) as (d & r & Hd & Hhead).
  rewrite Hhead. simpl String.eqb. cbv iota. rewrite <- Hhead.
  assert (2 ^ bitSize <= 2 ^ 64) by (apply Z.pow_le_mono_r; lia).
  unfold FormatUint. rewrite parse_formatDigits; [done| |lia|unfold maxUint64; lia].
  change (10 ^ Z.of_nat 20) with 100000000000000000000.
  change (2 ^ 64) with 18446744073709551616 in *. lia.
Qed.

Lemma ParseUint_FormatUint u bitSize :
  0 < bitSize <= 64 -> 0 <= u < 2 ^ bitSize ->
  ParseUint (FormatUint u) bitSize = Ok u.
Proof. intros. unfold ParseUint. by rewrite ParseUint_raw_FormatUint. Qed.

Lemma ParseInt_FormatInt i bitSize :
  0 < bitSize <= 64 -> - 2 ^ (bitSize - 1) <= i < 2 ^ (bitSize - 1) ->
  ParseInt (FormatInt i) bitSize = Ok i.
Proof.
  intros Hb Hi.
  assert (2 ^ bitSize = 2 * 2 ^ (bitSize - 1)) as Hpow.
  { rewrite <- Z.pow_succ_r by lia. f_equal. lia. }
  unfold FormatInt. destruct (Z.ltb_spec i 0).
  - unfold ParseInt. simpl Ascii.eqb. cbv iota.
    rewrite ParseUint_raw_FormatUint by lia.
    destruct (Z.ltb_spec (2 ^ (bitSize - 1)) (- i)); [lia|].
    simpl. f_equal. lia.
  - destruct (FormatUint_head i ltac:(lia)) as (d & r & Hd & Hhead).
    unfold ParseInt. rewrite Hhead.
    assert (Ascii.eqb (digitChar d) "+" = false /\ Ascii.eqb (digitChar d) "-" = false)
      as [-> ->].
    { assert (d = 0 \/ d = 1 \/ d = 2 \/ d = 3 \/ d = 4 \/ d = 5 \/ d = 6
              \/ d = 7 \/ d = 8 \/ d = 9) as Hcases by lia.
      repeat destruct Hcases as [->|Hcases]; try subst d; done. }
    rewrite <- Hhead, ParseUint_raw_FormatUint by lia.
    destruct (Z.leb_spec (2 ^ (bitSize - 1)) i); [lia|]. done.
Qed.

(** Text that starts with neither a sign nor a digit is no integer. *)
Lemma ParseInt_not_a_number c rest bitSize :
  ((48 <=? N_of_ascii c) && (N_of_ascii c <=? 57))%N = false ->
  c <> "+"%char -> c <> "-"%char ->
  ParseInt (String c rest) bitSize = Err (ErrNum "ParseInt" (String c rest) ErrSyntax).
Proof.
  intros Hd Hp Hm. unfold ParseInt.
  apply Ascii.eqb_neq in Hp, Hm. rewrite Hp, Hm.
  unfold ParseUint_raw. simpl. by rewrite Hd.
Qed.

Lemma ParseBool_FormatBool b : ParseBool (FormatBool b) = Ok b.
Proof. by destruct b. Qed.

End StrconvFacts.

(* ===================================================================== *)
(** ** Facts about package time *)
(* ===================================================================== *)

Section TimeFacts.
Import Time.
Variable local : Z -> Z.

Lemma allFrom_spec fuel x P :
  allFrom fuel x P = true -> forall y, x <= y < x + Z.of_nat fuel -> P y = true.
Proof.
  revert x. induction fuel as [|fuel IH]; intros x H y Hy; [lia|].
  simpl in H. destruct (P x) eqn:Hx; [|done].
  destruct (decide (y = x)) as [->|Hne]; [done|].
  apply (IH (x + 1)); [done|lia].
Qed.

Lemma era_checked doe : 0 <= doe < 146097 -> checkDoe doe = true.
Proof.
  intros H. apply (allFrom_spec (Z.to_nat 146097) 0 checkDoe); [|lia].
  vm_compute. reflexivity.
Qed.

Lemma appendInt_2 x : 0 <= x < 100 -> appendInt x 2 = twoDigits x.
Proof.
  intros H. apply String.eqb_eq.
  apply (allFrom_spec (Z.to_nat 100) 0
           (fun x => String.eqb (appendInt x 2) (twoDigits x))); [|lia].
  vm_compute. reflexivity.
Qed.

Lemma appendInt_4 x : 0 <= x < 10000 -> appendInt x 4 = fourDigits x.
Proof.
  intros H. apply String.eqb_eq.
  apply (allFrom_spec (Z.to_nat 10000) 0
           (fun x => String.eqb (appendInt x 4) (fourDigits x))); [|lia].
  vm_compute. reflexivity.
Qed.

Lemma digitsVal_twoDigits x : 0 <= x < 100 -> digitsVal (twoDigits x) 0 = Some x.
Proof.
  intros H.
  pose (P := fun x => match digitsVal (twoDigits x) 0 with
                      | Some v => v =? x | None => false end).
  assert (P x = true) as Hc.
  { apply (allFrom_spec (Z.to_nat 100) 0 P); [vm_compute; reflexivity | lia]. }
  unfold P in Hc.
  destruct (digitsVal (twoDigits x) 0); [|done]. f_equal. lia.
Qed.

Lemma digitsVal_fourDigits x : 0 <= x < 10000 -> digitsVal (fourDigits x) 0 = Some x.
Proof.
  intros H.
  pose (P := fun x => match digitsVal (fourDigits x) 0 with
                      | Some v => v =? x | None => false end).
  assert (P x = true) as Hc.
  { apply (allFrom_spec (Z.to_nat 10000) 0 P); [vm_compute; reflexivity | lia]. }
  unfold P in Hc.
  destruct (digitsVal (fourDigits x) 0); [|done]. f_equal. lia.
Qed.

Lemma parseUint_twoDigits x lo hi :
  0 <= x < 100 -> lo <= x <= hi -> parseUint (twoDigits x) lo hi = Some x.
Proof.
  intros H1 H2. unfold parseUint. rewrite digitsVal_twoDigits by done. simpl.
  destruct (x <? lo) eqn:?, (hi <? x) eqn:?; simpl; try lia; done.
Qed.

Lemma parseUint_fourDigits x lo hi :
  0 <= x < 10000 -> lo <= x <= hi -> parseUint (fourDigits x) lo hi = Some x.
Proof.
  intros H1 H2. unfold parseUint. rewrite digitsVal_fourDigits by done. simpl.
  destruct (x <? lo) eqn:?, (hi <? x) eqn:?; simpl; try lia; done.
Qed.

Lemma isLeap_era y e : isLeap (y + e * 400) = isLeap y.
Proof.
  unfold isLeap.
  replace (y + e * 400) with (y + (e * 100) * 4) at 1 by lia.
  replace (y + e * 400) with (y + (e * 4) * 100) at 1 by lia.
  by rewrite !Z_mod_plus_full.
Qed.

Lemma daysIn_era m y e : daysIn m (y + e * 400) = daysIn m y.
Proof. unfold daysIn. by rewrite isLeap_era. Qed.

Lemma daysOfCivil_era y m d e :
  daysOfCivil (y + e * 400) m d = daysOfCivil y m d + e * 146097.
Proof.
  unfold daysOfCivil. destruct (m <=? 2).
  - replace (y + e * 400 - 1) with (y - 1 + e * 400) by lia.
    rewrite Z_div_plus_full, Z_mod_plus_full by lia. lia.
  - rewrite Z_div_plus_full, Z_mod_plus_full by lia. lia.
Qed.

Lemma civilOfDays_spec days :
  match civilOfDays days with
  | (y, m, d) =>
      1 <= m <= 12 /\ 1 <= d <= daysIn m y /\ daysOfCivil y m d = days
      /\ (-719528 <= days < 2932897 -> 0 <= y <= 9999)
  end.
Proof.
  unfold civilOfDays.
  set (z := days + 719468).
  pose proof (Z.mod_pos_bound z 146097 ltac:(lia)) as Hdoe.
  pose proof (Z.div_mod z 146097 ltac:(lia)) as Hz.
  pose proof (era_checked (z mod 146097) Hdoe) as Hc.
  unfold checkDoe in Hc.
  destruct (civilOfDoe (z mod 146097)) as [[y m] d].
  rewrite daysIn_era, daysOfCivil_era.
  repeat (apply andb_prop in Hc as [Hc ?]).
  repeat split; try lia.
  - intros. destruct (z mod 146097 <? 146037) eqn:?; lia.
  - intros. destruct (z mod 146097 <? 146037) eqn:?; lia.
Qed.

Lemma civilOf_spec t :
  let c := civilOf t in
  1 <= cMonth c <= 12 /\ 1 <= cDay c <= daysIn (cMonth c) (cYear c)
  /\ 0 <= cHour c <= 23 /\ 0 <= cMin c <= 59 /\ 0 <= cSec c <= 59
  /\ unixOfCivil c = unixSec t + offset t
  /\ (-62167219200 <= unixSec t + offset t < 253402300800 -> 0 <= cYear c <= 9999).
Proof.
  unfold civilOf, unixOfCivil.
  set (abs := unixSec t + offset t).
  pose proof (civilOfDays_spec (abs / 86400)) as Hd.
  destruct (civilOfDays (abs / 86400)) as [[y m] d]. simpl.
  destruct Hd as (Hm & Hdd & Hback & Hy).
  rewrite Hback.
  pose proof (Z.mod_pos_bound abs 86400 ltac:(lia)).
  pose proof (Z.div_mod abs 86400 ltac:(lia)).
  set (s := abs mod 86400) in *.
  pose proof (Z.div_mod s 3600 ltac:(lia)).
  pose proof (Z.mod_pos_bound s 3600 ltac:(lia)).
  pose proof (Z.div_mod (s mod 3600) 60 ltac:(lia)).
  pose proof (Z.mod_pos_bound (s mod 3600) 60 ltac:(lia)).
  assert (s mod 60 = (s mod 3600) mod 60) as Hs60.
  { clear. Z.div_mod_to_equations. lia. }
  rewrite Hs60.
  repeat split; lia.
Qed.

Lemma parseRFC3339_layout (y3 y2 y1 y0 m1 m0 d1 d0 h1 h0 n1 n0 s1 s0 : ascii)
    (rest : string) :
  parseRFC3339 local
    (String y3 (String y2 (String y1 (String y0 (String "-"
    (String m1 (String m0 (String "-" (String d1 (String d0 (String "T"
    (String h1 (String h0 (String ":" (String n1 (String n0 (String ":"
    (String s1 (String s0 rest)))))))))))))))))))
  = (year ← parseUint (String y3 (String y2 (String y1 (String y0 "")))) 0 9999;
     month ← parseUint (String m1 (String m0 "")) 1 12;
     day ← parseUint (String d1 (String d0 "")) 1 (daysIn month year);
     hour ← parseUint (String h1 (String h0 "")) 0 23;
     min ← parseUint (String n1 (String n0 "")) 0 59;
     sec ← parseUint (String s1 (String s0 "")) 0 59;
     let '(ns, rest') := parseFraction rest in
     z ← parseZone rest';
     let u := unixOfCivil (mkCivil year month day hour min sec) in
     Some (match z with
           | None => mkTime u ns UTC
           | Some zoneOffset =>
               mkTime (u - zoneOffset) ns (zoneLocation local (u - zoneOffset) zoneOffset)
           end)).
Proof. reflexivity. Qed.

Lemma parseZone_layout (sign h1 h0 m1 m0 : ascii) :
  sign = "+"%char \/ sign = "-"%char ->
  parseZone (String sign (String h1 (String h0 (String ":" (String m1 (String m0 ""))))))
  = (hr ← parseUint (String h1 (String h0 "")) 0 23;
     mm ← parseUint (String m1 (String m0 "")) 0 59;
     Some (Some (if Ascii.eqb sign "-" then - ((hr * 60 + mm) * 60)
                 else (hr * 60 + mm) * 60))).
Proof. intros [->| ->]; reflexivity. Qed.

Lemma parseFraction_layout (sign : ascii) rest :
  sign <> "."%char -> parseFraction (String sign rest) = (0, String sign rest).
Proof.
  intros Hne. unfold parseFraction.
  destruct sign as [[] [] [] [] [] [] [] []]; try reflexivity. done.
Qed.

Lemma daysIn_le m y : daysIn m y <= 31.
Proof. unfold daysIn. repeat case_match; lia. Qed.

Lemma quot60 off :
  off mod 60 = 0 -> -86400 < off < 86400 -> off <> 0 ->
  let zone := Z.quot off 60 in
  Z.abs zone * 60 = Z.abs off /\ 0 < Z.abs zone < 1440
  /\ (zone <? 0) = (off <? 0).
Proof.
  intros Hm Hr Hne. simpl.
  pose proof (Z.quot_rem off 60 ltac:(lia)) as Hq.
  assert (Z.rem off 60 = 0) as Hrem.
  { apply Z.rem_divide; [lia|]. apply Z.mod_divide; [lia|done]. }
  rewrite Hrem in Hq.
  destruct (Z.ltb_spec (Z.quot off 60) 0), (Z.ltb_spec off 0); lia.
Qed.

Lemma parseZone_formatZone off :
  off mod 60 = 0 -> -86400 < off < 86400 ->
  parseZone (formatZone off) = Some (if off =? 0 then None else Some off)
  /\ parseFraction (formatZone off) = (0, formatZone off).
Proof.
  intros Hm Hr. unfold formatZone.
  destruct (Z.eqb_spec off 0) as [->|Hne]; [done|].
  destruct (quot60 off Hm Hr Hne) as (Habs & Hz & Hsign).
  set (zone := Z.quot off 60) in *.
  pose proof (Z.div_mod (Z.abs zone) 60 ltac:(lia)).
  pose proof (Z.mod_pos_bound (Z.abs zone) 60 ltac:(lia)).
  assert (0 <= Z.abs zone / 60 < 24) by (Z.div_mod_to_equations; lia).
  rewrite !appendInt_2 by lia.
  set (sign := if zone <? 0 then "-" else "+").
  assert (exists c, sign = String c "" /\ (c = "+"%char \/ c = "-"%char)
                    /\ Ascii.eqb c "-" = (off <? 0)) as (c & -> & Hc & Hneg).
  { unfold sign. rewrite Hsign. destruct (off <? 0); eexists; eauto. }
  lazy beta iota fix delta [String.append twoDigits].
  split.
  - rewrite parseZone_layout by done.
    change (String (Strconv.digitChar (Z.abs zone / 60 / 10)) _)
      with (twoDigits (Z.abs zone / 60)).
    change (String (Strconv.digitChar (Z.abs zone mod 60 / 10)) _)
      with (twoDigits (Z.abs zone mod 60)).
    rewrite !parseUint_twoDigits by lia. simpl.
    rewrite Hneg. do 2 f_equal. destruct (Z.ltb_spec off 0); lia.
  - apply parseFraction_layout. by destruct Hc as [->| ->].
Qed.

Lemma parse_format t :
  -62167219200 <= unixSec t + offset t < 253402300800 ->
  offset t mod 60 = 0 -> -86400 < offset t < 86400 ->
  parseRFC3339 local (FormatRFC3339 t)
  = Some (mkTime (unixSec t) 0 (parsedLocation local t)).
Proof.
  intros Hy Hm Hr. unfold FormatRFC3339, formatCivil.
  destruct (civilOf_spec t) as (Hmo & Hd & Hh & Hmi & Hs & Hu & Hyr).
  specialize (Hyr Hy).
  destruct (parseZone_formatZone (offset t) Hm Hr) as [Hz Hf].
  set (c := civilOf t) in *.
  pose proof (daysIn_le (cMonth c) (cYear c)).
  rewrite appendInt_4, !appendInt_2 by lia.
  lazy beta iota fix delta [String.append twoDigits fourDigits].
  rewrite parseRFC3339_layout.
  change (String (Strconv.digitChar (cYear c / 1000)) _) with (fourDigits (cYear c)).
  rewrite parseUint_fourDigits by lia. cbn [mbind option_bind].
  change (String (Strconv.digitChar (cMonth c / 10)) _) with (twoDigits (cMonth c)).
  rewrite parseUint_twoDigits by lia. cbn [mbind option_bind].
  change (String (Strconv.digitChar (cDay c / 10)) _) with (twoDigits (cDay c)).
  rewrite parseUint_twoDigits by lia. cbn [mbind option_bind].
  change (String (Strconv.digitChar (cHour c / 10)) _) with (twoDigits (cHour c)).
  rewrite parseUint_twoDigits by lia. cbn [mbind option_bind].
  change (String (Strconv.digitChar (cMin c / 10)) _) with (twoDigits (cMin c)).
  rewrite parseUint_twoDigits by lia. cbn [mbind option_bind].
  change (String (Strconv.digitChar (cSec c / 10)) _) with (twoDigits (cSec c)).
  rewrite parseUint_twoDigits by lia. cbn [mbind option_bind].
  rewrite Hf. cbv beta iota. rewrite Hz. cbn [mbind option_bind].
  replace (mkCivil _ _ _ _ _ _) with c by (by destruct c).
  cbv zeta. rewrite Hu. unfold parsedLocation.
  destruct (Z.eqb_spec (offset t) 0) as [H0|H0].
  - do 2 f_equal. lia.
  - replace (unixSec t + offset t - offset t) with (unixSec t) by lia. done.
Qed.

End TimeFacts.

(* ===================================================================== *)
(** ** The two loops *)
(* ===================================================================== *)

Section Loops.
Context `{E : Env}.

Lemma Marshal_anyStruct addr r :
  Marshal (anyStruct addr r) = marshalFields addr r ∅.
Proof. by destruct addr. Qed.

Lemma Unmarshal_ptr values r :
  Unmarshal values (APtrStruct r) =
  (APtrStruct (unmarshalFields values r).1, (unmarshalFields values r).2).
Proof. unfold Unmarshal; simpl. by destruct (unmarshalFields values r). Qed.

(** The body of [Marshal]'s loop, read through the resolved key. *)
Lemma marshalField_key addr uv f :
  marshalField addr uv f =
  match marshalKey f with
  | None => (uv, None)
  | Some name =>
      if negb (CanInterface f) then (uv, None)
      else if tagOmitzero f && IsZero (fv f) then (uv, None)
      else match asSlice (fv f) with
           | Some (_, xs) => marshalElems name xs uv
           | None => match toString addr (fv f) with
                     | Err e => (uv, Some e)
                     | Ok s => (Url.Set_ uv name s, None)
                     end
           end
  end.
Proof.
  unfold marshalField, marshalKey, tagName, tagOmitzero.
  destruct (parseTag _) as [name oz]; simpl.
  by destruct (String.eqb name "-").
Qed.

(** The body of [Unmarshal]'s loop, read through the resolved key. *)
Lemma unmarshalField_key values f :
  unmarshalField values f =
  match unmarshalKey f with
  | None => (f, None)
  | Some name =>
      match values !! name with
      | None | Some [] => (f, None)
      | Some ((s0 :: _) as strs) =>
          if negb (CanSet f) then (f, None)
          else match asSlice (fv f) with
               | Some (sliceType, _) =>
                   match unmarshalElems sliceType strs [] with
                   | Err e => (f, Some (ErrField name e))
                   | Ok newSlice =>
                       (setFv f (rewrap (fv f) (VSlice sliceType (Some newSlice))), None)
                   end
               | None =>
                   let '(v', err) := setFromString true (fv f) s0 in
                   (setFv f v', ErrField name <$> err)
               end
      end
  end.
Proof.
  unfold unmarshalField, unmarshalKey, tagName.
  destruct (parseTag _) as [name oz]; simpl.
  by destruct (String.eqb name "-").
Qed.

Lemma marshalFields_app addr pre post uv :
  marshalFields addr (pre ++ post) uv =
  match marshalFields addr pre uv with
  | (uv', Some e) => (uv', Some e)
  | (uv', None) => marshalFields addr post uv'
  end.
Proof.
  revert uv; induction pre as [|f pre IH]; intros uv; simpl; [done|].
  destruct (marshalField addr uv f) as [uv' [e|]]; [done|]. apply IH.
Qed.

Lemma unmarshalFields_app values pre post :
  unmarshalFields values (pre ++ post) =
  match unmarshalFields values pre with
  | (pre', Some e) => (pre' ++ post, Some e)
  | (pre', None) =>
      let '(post', err) := unmarshalFields values post in (pre' ++ post', err)
  end.
Proof.
  induction pre as [|f pre IH]; simpl.
  - by destruct (unmarshalFields values post).
  - destruct (unmarshalField values f) as [f' [e|]]; [done|].
    rewrite IH. destruct (unmarshalFields values pre) as [pre' [e|]]; [done|].
    by destruct (unmarshalFields values post).
Qed.

Lemma unmarshalFields_length values fs :
  length (unmarshalFields values fs).1 = length fs.
Proof.
  induction fs as [|f fs IH]; simpl; [done|].
  destruct (unmarshalField values f) as [f' [e|]]; simpl; [done|].
  destruct (unmarshalFields values fs); simpl in *. by rewrite IH.
Qed.

(** A field whose tag name is ["-"] is a no-op of both loop bodies. *)
Lemma marshalField_dash addr uv f :
  tagName f = "-" -> marshalField addr uv f = (uv, None).
Proof. intros H. rewrite marshalField_key. unfold marshalKey. by rewrite H. Qed.

Lemma unmarshalField_dash values f :
  tagName f = "-" -> unmarshalField values f = (f, None).
Proof. intros H. rewrite unmarshalField_key. unfold unmarshalKey. by rewrite H. Qed.


(** *** What one field of [Marshal] can touch *)

Lemma Add_lookup_ne (uv : Url.Values) name s k :
  name <> k -> Url.Add uv name s !! k = uv !! k.
Proof. intros. unfold Url.Add. by rewrite lookup_insert_ne. Qed.

Lemma Add_lookup_eq (uv : Url.Values) name s :
  Url.Add uv name s !! name = Some (default [] (uv !! name) ++ [s]).
Proof. unfold Url.Add. by rewrite lookup_insert_eq. Qed.

Lemma addAll_lookup_ne uv name ss k :
  name <> k -> addAll uv name ss !! k = uv !! k.
Proof.
  intros Hne. revert uv. induction ss as [|s ss IH]; intros uv; simpl; [done|].
  unfold addAll in *; simpl. by rewrite IH, Add_lookup_ne.
Qed.

Lemma addAll_lookup_eq uv name ss :
  ss <> [] -> addAll uv name ss !! name = Some (default [] (uv !! name) ++ ss).
Proof.
  revert uv. induction ss as [|s ss IH]; intros uv Hne; [done|].
  unfold addAll in *; simpl.
  destruct ss as [|s' ss].
  - simpl. apply Add_lookup_eq.
  - rewrite IH by done. rewrite Add_lookup_eq. simpl. by rewrite <- app_assoc.
Qed.

Lemma marshalElems_ok name xs ss uv :
  Forall2 (fun x s => toString true x = Ok s) xs ss ->
  marshalElems name xs uv = (addAll uv name ss, None).
Proof.
  intros H. revert uv. induction H as [|x s xs ss Hx _ IH]; intros uv; simpl; [done|].
  rewrite Hx. apply IH.
Qed.

(** When an element fails, the elements before it have been added. *)
Lemma marshalElems_err name xs uv uv' e :
  marshalElems name xs uv = (uv', Some e) ->
  exists good bad rest ss,
    xs = good ++ bad :: rest
    /\ Forall2 (fun x s => toString true x = Ok s) good ss
    /\ toString true bad = Err e
    /\ uv' = addAll uv name ss.
Proof.
  revert uv. induction xs as [|x xs IH]; intros uv; simpl; [done|].
  destruct (toString true x) as [s|e'] eqn:Hx.
  - intros H. destruct (IH _ H) as (good & bad & rest & ss & -> & Hg & Hb & ->).
    exists (x :: good), bad, rest, (s :: ss). repeat split; try done.
    by constructor.
  - intros [= <- <-]. exists [], x, xs, []. repeat split; try done.
Qed.

Lemma marshalElems_other name xs uv k :
  name <> k -> (marshalElems name xs uv).1 !! k = uv !! k.
Proof.
  intros Hne. revert uv. induction xs as [|x xs IH]; intros uv; simpl; [done|].
  destruct (toString true x); [|done]. by rewrite IH, Add_lookup_ne.
Qed.

Lemma marshalField_other addr uv f k :
  marshalKey f <> Some k -> (marshalField addr uv f).1 !! k = uv !! k.
Proof.
  intros Hk. rewrite marshalField_key.
  destruct (marshalKey f) as [name|]; [|done].
  assert (name <> k) by congruence.
  destruct (negb (CanInterface f)); [done|].
  destruct (tagOmitzero f && IsZero (fv f)); [done|].
  destruct (asSlice (fv f)) as [[ty xs]|].
  - by apply marshalElems_other.
  - destruct (toString addr (fv f)); [|done].
    simpl. unfold Url.Set_. by rewrite lookup_insert_ne.
Qed.

Lemma marshalFields_other addr fs uv k :
  Forall (fun g => marshalKey g <> Some k) fs ->
  (marshalFields addr fs uv).1 !! k = uv !! k.
Proof.
  intros H. revert uv. induction H as [|f fs Hf _ IH]; intros uv; simpl; [done|].
  pose proof (marshalField_other addr uv f k Hf) as Hstep.
  destruct (marshalField addr uv f) as [uv' [e|]]; simpl in *; [done|].
  by rewrite IH.
Qed.

(** A scalar field that converts sets its key to the one string. *)
Lemma marshalField_scalar addr uv f k s :
  marshalKey f = Some k -> CanInterface f = true ->
  tagOmitzero f && IsZero (fv f) = false ->
  asSlice (fv f) = None -> toString addr (fv f) = Ok s ->
  marshalField addr uv f = (Url.Set_ uv k s, None).
Proof.
  intros Hk Hc Hz Hs Ht. rewrite marshalField_key, Hk, Hc, Hz, Hs, Ht. done.
Qed.

(** The last scalar field to write a key decides its value. *)
Lemma marshal_last_scalar addr pre f post uv0 uv k s :
  marshalFields addr (pre ++ f :: post) uv0 = (uv, None) ->
  marshalKey f = Some k -> CanInterface f = true ->
  tagOmitzero f && IsZero (fv f) = false ->
  asSlice (fv f) = None -> toString addr (fv f) = Ok s ->
  Forall (fun g => marshalKey g <> Some k) post ->
  uv !! k = Some [s].
Proof.
  intros Hm Hk Hc Hz Hs Ht Hpost.
  rewrite marshalFields_app in Hm.
  destruct (marshalFields addr pre uv0) as [uv1 [e|]]; [done|].
  simpl in Hm. rewrite (marshalField_scalar _ _ _ k s) in Hm by done.
  pose proof (marshalFields_other addr post (Url.Set_ uv1 k s) k Hpost) as Hfr.
  rewrite Hm in Hfr. simpl in Hfr. rewrite Hfr.
  unfold Url.Set_. by rewrite lookup_insert_eq.
Qed.

(** *** What one field of [Unmarshal] reads *)

(** A non-slice field reads at most the first string under its key. *)
Lemma unmarshalField_first_only (values : Url.Values) f k s rest :
  (unmarshalKey f = Some k -> asSlice (fv f) = None) ->
  unmarshalField (<[k := s :: rest]> values) f = unmarshalField (<[k := [s]]> values) f.
Proof.
  intros Hsc. rewrite !unmarshalField_key.
  destruct (unmarshalKey f) as [name|] eqn:Hk; [|done].
  destruct (decide (name = k)) as [->|Hne].
  - rewrite !lookup_insert_eq. by rewrite Hsc.
  - by rewrite !lookup_insert_ne.
Qed.


Lemma unmarshalElems_acc ty strs acc :
  unmarshalElems ty strs acc =
  match unmarshalElems ty strs [] with
  | Ok vs => Ok (acc ++ vs)
  | Err e => Err e
  end.
Proof.
  revert acc. induction strs as [|s strs IH]; intros acc; simpl.
  - by rewrite app_nil_r.
  - destruct (setFromString true (zeroValue ty) s) as [v [e|]]; [done|].
    rewrite (IH (acc ++ [v])), (IH [v]).
    destruct (unmarshalElems ty strs []); [|done].
    by rewrite <- app_assoc.
Qed.

Lemma unmarshalElems_ok ty strs vs :
  Forall2 (fun s v => setFromString true (zeroValue ty) s = (v, None)) strs vs ->
  unmarshalElems ty strs [] = Ok vs.
Proof.
  induction 1 as [|s v strs vs Hs _ IH]; simpl; [done|].
  rewrite Hs, unmarshalElems_acc, IH. done.
Qed.

Lemma unmarshalElems_err ty good bad rest v' cause :
  Forall (fun s => (setFromString true (zeroValue ty) s).2 = None) good ->
  setFromString true (zeroValue ty) bad = (v', Some cause) ->
  unmarshalElems ty (good ++ bad :: rest) [] = Err cause.
Proof.
  intros Hgood Hbad. induction Hgood as [|s good Hs _ IH]; simpl.
  - by rewrite Hbad.
  - destruct (setFromString true (zeroValue ty) s) as [v [e|]]; [done|].
    by rewrite unmarshalElems_acc, IH.
Qed.

(** Without an [Unmarshaler], a failing [setFromString] sets nothing. *)
Lemma setFromString_err_unchanged v s v' e :
  implementsUnmarshaler true v = None ->
  setFromString true v s = (v', Some e) -> v' = v.
Proof.
  unfold setFromString. intros ->.
  destruct (underlying v);
    repeat match goal with
           | |- context [match ?x with _ => _ end] => destruct x
           end; congruence.
Qed.


(** A slice field whose elements convert adds their strings, in order,
    to what its key held; later fields with other keys keep them. *)
Lemma marshalField_slice addr uv f k ty xs ss :
  marshalKey f = Some k -> CanInterface f = true ->
  tagOmitzero f && IsZero (fv f) = false ->
  asSlice (fv f) = Some (ty, xs) ->
  Forall2 (fun x s => toString true x = Ok s) xs ss ->
  marshalField addr uv f = (addAll uv k ss, None).
Proof.
  intros Hk Hc Hz Hs Ht. rewrite marshalField_key, Hk, Hc, Hz, Hs. simpl.
  by apply marshalElems_ok.
Qed.

Lemma addAll_lookup_default uv name ss :
  default [] (addAll uv name ss !! name) = default [] (uv !! name) ++ ss.
Proof.
  destruct ss as [|s ss]; [by rewrite app_nil_r|].
  by rewrite addAll_lookup_eq.
Qed.

Lemma marshal_slice_entries addr pre f post uv0 uv k ty xs ss :
  marshalFields addr (pre ++ f :: post) uv0 = (uv, None) ->
  marshalKey f = Some k -> CanInterface f = true ->
  tagOmitzero f && IsZero (fv f) = false ->
  asSlice (fv f) = Some (ty, xs) ->
  Forall2 (fun x s => toString true x = Ok s) xs ss ->
  Forall (fun g => marshalKey g <> Some k) post ->
  default [] (uv !! k) = default [] ((marshalFields addr pre uv0).1 !! k) ++ ss.
Proof.
  intros Hm Hk Hc Hz Hs Ht Hpost.
  rewrite marshalFields_app in Hm.
  destruct (marshalFields addr pre uv0) as [uv1 [e|]]; [done|].
  simpl in Hm. rewrite (marshalField_slice _ _ _ k ty xs ss) in Hm by done.
  pose proof (marshalFields_other addr post (addAll uv1 k ss) k Hpost) as Hfr.
  rewrite Hm in Hfr. simpl in Hfr. rewrite Hfr. simpl.
  apply addAll_lookup_default.
Qed.

(** A field that [omitzero] drops is a no-op of the loop body. *)
Lemma marshalField_omitted addr uv f :
  tagOmitzero f = true -> IsZero (fv f) = true ->
  marshalField addr uv f = (uv, None).
Proof.
  intros Ho Hz. rewrite marshalField_key, Ho, Hz.
  destruct (marshalKey f); [|done]. by destruct (negb (CanInterface f)).
Qed.

(** No field of [fs] resolves to [k]: [Marshal] leaves [k] alone. *)
Lemma marshalFields_absent addr fs k :
  Forall (fun g => marshalKey g <> Some k) fs ->
  (marshalFields addr fs ∅).1 !! k = None.
Proof. intros H. by rewrite marshalFields_other. Qed.

(** [Unmarshal] reaches [f] after [pre]: the field it leaves at that
    position is the one its loop body computes. *)
Lemma unmarshalFields_at values pre pre' f post :
  unmarshalFields values pre = (pre', None) ->
  exists post' err,
    unmarshalFields values (pre ++ f :: post)
    = (pre' ++ (unmarshalField values f).1 :: post', err)
    /\ (err = None -> (unmarshalField values f).2 = None).
Proof.
  intros Hpre. rewrite unmarshalFields_app, Hpre. simpl.
  destruct (unmarshalField values f) as [f' [e|]]; simpl.
  - by exists post, (Some e).
  - destruct (unmarshalFields values post) as [post' err]. by exists post', err.
Qed.

Lemma unmarshalField_slice values f k ty old s0 strs vs :
  unmarshalKey f = Some k -> values !! k = Some (s0 :: strs) ->
  CanSet f = true -> asSlice (fv f) = Some (ty, old) ->
  Forall2 (fun s v => setFromString true (zeroValue ty) s = (v, None)) (s0 :: strs) vs ->
  unmarshalField values f
  = (setFv f (rewrap (fv f) (VSlice ty (Some vs))), None).
Proof.
  intros Hk Hv Hc Hs Hall.
  rewrite unmarshalField_key, Hk, Hv, Hc, Hs. simpl negb. cbv iota.
  by rewrite (unmarshalElems_ok ty (s0 :: strs) vs Hall).
Qed.

(** The tag options play no part in [Unmarshal]. *)
Lemma unmarshalField_options values f g :
  sameUpToOptions f g ->
  fv (unmarshalField values f).1 = fv (unmarshalField values g).1
  /\ (unmarshalField values f).2 = (unmarshalField values g).2
  /\ sameUpToOptions (unmarshalField values f).1 (unmarshalField values g).1.
Proof.
  intros (Hn & Ht & Hv).
  assert (unmarshalKey f = unmarshalKey g) as Hk.
  { unfold unmarshalKey. by rewrite Hn, Ht. }
  assert (CanSet f = CanSet g) as Hc.
  { unfold CanSet, exported. by rewrite Hn. }
  rewrite !unmarshalField_key, <- Hk, <- Hc, <- Hv.
  destruct (unmarshalKey f) as [name|]; [|done].
  destruct (values !! name) as [[|s0 strs]|]; [done| |done].
  destruct (negb (CanSet f)); [done|].
  destruct (asSlice (fv f)) as [[ty old]|].
  - destruct (unmarshalElems ty (s0 :: strs) []); [|done].
    simpl. repeat split; try done.
  - destruct (setFromString true (fv f) s0) as [v' err]. simpl.
    repeat split; try done.
Qed.

Lemma unmarshalFields_options values r1 r2 :
  Forall2 sameUpToOptions r1 r2 ->
  map fv (unmarshalFields values r1).1 = map fv (unmarshalFields values r2).1
  /\ (unmarshalFields values r1).2 = (unmarshalFields values r2).2.
Proof.
  induction 1 as [|f g r1 r2 Hfg Hr IH]; simpl; [done|].
  destruct (unmarshalField_options values f g Hfg) as (Hv & He & _).
  destruct (unmarshalField values f) as [f' e1], (unmarshalField values g) as [g' e2].
  simpl in *. subst e2.
  destruct e1 as [e|]; simpl.
  - split; [|done]. rewrite Hv. f_equal.
    clear -Hr. induction Hr as [|a b r1 r2 (_ & _ & Hab) _ IH]; simpl; [done|].
    by rewrite Hab, IH.
  - destruct IH as [IH1 IH2].
    destruct (unmarshalFields values r1), (unmarshalFields values r2). simpl in *.
    by rewrite Hv, IH1, IH2.
Qed.

(** [parseTag] finds an empty name exactly in an empty tag value and in
    one that starts with the comma. *)
Lemma parseTag_empty_name tag :
  (parseTag tag).1 = "" <-> tag = "" \/ exists opts, tag = String "," opts.
Proof.
  unfold parseTag. destruct tag as [|c tag]; simpl; [tauto|].
  destruct (Ascii.eqb_spec c ","); simpl.
  - subst. split; eauto.
  - destruct (Strings.Split tag ",") as [|p ps]; simpl;
      (split; [done|intros [?|[? ?]]; congruence]).
Qed.


(** *** Every error of the two loops is a first failure *)

Lemma marshalField_error addr uv f uv' e :
  marshalField addr uv f = (uv', Some e) ->
  exists k added,
    marshalKey f = Some k /\ CanInterface f = true
    /\ tagOmitzero f && IsZero (fv f) = false
    /\ marshalFails addr f added e
    /\ uv' = addAll uv k added.
Proof.
  rewrite marshalField_key.
  destruct (marshalKey f) as [k|]; [|done].
  destruct (CanInterface f); [|done].
  destruct (tagOmitzero f && IsZero (fv f)); [done|]. simpl.
  destruct (asSlice (fv f)) as [[ty xs]|] eqn:Hs.
  - intros H. apply marshalElems_err in H as (good & bad & rest & ss & -> & Hg & Hb & ->).
    exists k, ss. repeat split; try done. by eapply element_fails.
  - destruct (toString addr (fv f)) as [s|e'] eqn:Ht; [done|].
    intros [= <- <-]. exists k, []. repeat split; try done. by apply scalar_fails.
Qed.

Lemma marshalFields_error addr fs : forall uv0 uv e,
  marshalFields addr fs uv0 = (uv, Some e) ->
  exists pre f post uv_pre k added,
    fs = pre ++ f :: post
    /\ marshalFields addr pre uv0 = (uv_pre, None)
    /\ marshalKey f = Some k /\ CanInterface f = true
    /\ tagOmitzero f && IsZero (fv f) = false
    /\ marshalFails addr f added e
    /\ uv = addAll uv_pre k added.
Proof.
  induction fs as [|f fs IH]; intros uv0 uv e; simpl; [done|].
  destruct (marshalField addr uv0 f) as [uv1 [e1|]] eqn:Hf.
  - intros [= <- <-].
    destruct (marshalField_error _ _ _ _ _ Hf) as (k & added & Hk & Hc & Hz & Hfail & ->).
    by exists [], f, fs, uv0, k, added.
  - intros H.
    destruct (IH _ _ _ H) as (pre & g & post & uv_pre & k & added & -> & Hpre & Hrest).
    exists (f :: pre), g, post, uv_pre, k, added. split; [done|].
    split; [|done]. simpl. by rewrite Hf.
Qed.

Lemma unmarshalElems_error ty strs e :
  unmarshalElems ty strs [] = Err e ->
  exists good bad rest v',
    strs = good ++ bad :: rest
    /\ Forall (fun s => (setFromString true (zeroValue ty) s).2 = None) good
    /\ setFromString true (zeroValue ty) bad = (v', Some e).
Proof.
  induction strs as [|s strs IH]; simpl; [done|].
  destruct (setFromString true (zeroValue ty) s) as [v [e'|]] eqn:Hs.
  - intros [= <-]. by exists [], s, strs, v.
  - rewrite unmarshalElems_acc.
    destruct (unmarshalElems ty strs []) as [vs|e'] eqn:Hrest; [done|].
    intros [= <-]. destruct (IH eq_refl) as (good & bad & rest & v' & -> & Hg & Hb).
    exists (s :: good), bad, rest, v'. repeat split; try done.
    constructor; [by rewrite Hs|done].
Qed.

Lemma unmarshalField_error values f f' e :
  unmarshalField values f = (f', Some e) ->
  exists k strs cause,
    unmarshalKey f = Some k /\ values !! k = Some strs /\ CanSet f = true
    /\ unmarshalFails f strs f' cause
    /\ e = ErrField k cause.
Proof.
  rewrite unmarshalField_key.
  destruct (unmarshalKey f) as [k|]; [|done].
  destruct (values !! k) as [[|s0 strs]|] eqn:Hv; [done| |done].
  destruct (CanSet f); [|done]. cbn [negb].
  destruct (asSlice (fv f)) as [[ty old]|] eqn:Hs.
  - destruct (unmarshalElems ty (s0 :: strs) []) as [vs|cause] eqn:He; [done|].
    intros [= <- <-].
    apply unmarshalElems_error in He as (good & bad & rest & v' & Hsplit & Hg & Hb).
    exists k, (s0 :: strs), cause. repeat split; try done.
    rewrite Hsplit. by eapply element_decode_fails.
  - destruct (setFromString true (fv f) s0) as [v' [cause|]] eqn:Hset; [|done].
    simpl. intros [= <- <-].
    exists k, (s0 :: strs), cause. repeat split; try done.
    by apply scalar_decode_fails.
Qed.

End Loops.

(* ===================================================================== *)
(** ** What comes back from [Marshal] then [Unmarshal] *)
(* ===================================================================== *)

Section RoundTripFacts.
Context `{E : Env}.












Lemma unmarshalField_absent (uv : Url.Values) f k :
  unmarshalKey f = Some k -> default [] (uv !! k) = [] ->
  unmarshalField uv f = (f, None).
Proof.
  intros Hk Hd. rewrite unmarshalField_key, Hk.
  by destruct (uv !! k) as [[|]|].
Qed.






End RoundTripFacts.

(* ===================================================================== *)
(** ** Claims *)
(* ===================================================================== *)

Section Claims.
Context `{E : Env}.

(** C7. A field whose tag name is ["-"] takes part in neither direction:
    [Marshal] returns exactly what it returns for the struct without the
    field, and [Unmarshal], whatever the input map holds (also a key equal
    to the field's declared or derived name), leaves the field as it was
    and treats the other fields as if it were not there. *)
Theorem dash_field_ignored (addr : bool) (pre post : list Field) (f : Field)
    (values : Url.Values) :
  tagName f = "-" ->
  Marshal (anyStruct addr (pre ++ f :: post)) = Marshal (anyStruct addr (pre ++ post))
  /\ exists pre' post' err,
       length pre' = length pre
       /\ Unmarshal values (APtrStruct (pre ++ post)) = (APtrStruct (pre' ++ post'), err)
       /\ Unmarshal values (APtrStruct (pre ++ f :: post))
          = (APtrStruct (pre' ++ f :: post'), err).
Proof.
  intros Hdash. split.
  - rewrite !Marshal_anyStruct, !marshalFields_app.
    destruct (marshalFields addr pre ∅) as [uv [e|]]; [done|].
    simpl. by rewrite marshalField_dash.
  - rewrite !Unmarshal_ptr, !unmarshalFields_app.
    pose proof (unmarshalFields_length values pre) as Hlen.
    destruct (unmarshalFields values pre) as [pre' [e|]]; simpl in *.
    + by exists pre', post, (Some e).
    + rewrite unmarshalField_dash by done.
      destruct (unmarshalFields values post) as [post' err]; simpl.
      by exists pre', post', err.
Qed.

(** C9. Each scalar field that converts writes a single-value entry over
    whatever its key held ([uv.Set]), so when several fields resolve to
    one key the last-listed scalar field decides: if [f] is a scalar that
    converts to [s] and no later field resolves to its key [k], the output
    of a successful [Marshal] maps [k] to [[s]], whatever the earlier
    fields wrote under [k]. *)
Theorem last_scalar_field_wins (addr : bool) (pre post : list Field) (f : Field)
    (k s : string) :
  marshalKey f = Some k ->
  CanInterface f = true ->
  tagOmitzero f && IsZero (fv f) = false ->
  asSlice (fv f) = None ->
  toString addr (fv f) = Ok s ->
  (forall uv : Url.Values, marshalField addr uv f = (<[k := [s]]> uv, None))
  /\ (forall uv : Url.Values,
        Marshal (anyStruct addr (pre ++ f :: post)) = (uv, None) ->
        Forall (fun g => marshalKey g <> Some k) post ->
        uv !! k = Some [s]).
Proof.
  intros Hk Hc Hz Hs Ht. split.
  - intros uv. by rewrite (marshalField_scalar addr uv f k s).
  - intros uv. rewrite Marshal_anyStruct. intros Hm Hpost.
    by apply (marshal_last_scalar addr pre f post ∅ uv k s).
Qed.

(** C10. More than one value under the key of a scalar field: [Unmarshal]
    decodes the first value into the field and never looks at the others.
    When the first value converts, the field holds what it converts to and
    the call goes on to the later fields, whose outcome is the outcome of
    the call; when it does not convert, the call ends with that error
    under the field's key. In both cases the other values play no part:
    the call behaves (fields and error) exactly as on the map that holds
    the first value alone under that key. *)
Theorem scalar_field_reads_first_value (values : Url.Values)
    (pre pre' post : list Field) (f : Field) (k s : string) (rest : list string)
    (v' : Value) (err : option Error) :
  unmarshalKey f = Some k ->
  CanSet f = true ->
  asSlice (fv f) = None ->
  values !! k = Some (s :: rest) ->
  Unmarshal values (APtrStruct pre) = (APtrStruct pre', None) ->
  setFromString true (fv f) s = (v', err) ->
  match err with
  | None =>
      exists post' err',
        Unmarshal values (APtrStruct post) = (APtrStruct post', err')
        /\ Unmarshal values (APtrStruct (pre ++ f :: post))
           = (APtrStruct (pre' ++ setFv f v' :: post'), err')
  | Some cause =>
      Unmarshal values (APtrStruct (pre ++ f :: post))
      = (APtrStruct (pre' ++ setFv f v' :: post), Some (ErrField k cause))
  end
  /\ (Forall (fun g => unmarshalKey g = Some k -> asSlice (fv g) = None) (pre ++ post) ->
      Unmarshal (<[k := [s]]> values) (APtrStruct (pre ++ f :: post))
      = Unmarshal values (APtrStruct (pre ++ f :: post))).
Proof.
  intros Hk Hc Hs Hv Hpre Hset. split.
  - rewrite !Unmarshal_ptr in *.
    destruct (unmarshalFields values pre) as [p1 e1] eqn:Hp. simpl in Hpre.
    injection Hpre as -> ->.
    rewrite unmarshalFields_app, Hp. simpl.
    rewrite unmarshalField_key, Hk, Hv, Hc, Hs, Hset. simpl.
    destruct err as [cause|]; simpl; [done|].
    destruct (unmarshalFields values post) as [post' err']. simpl.
    by exists post', err'.
  - intros Hsc. rewrite <- (insert_id values k (s :: rest) Hv) at 2.
    rewrite !Unmarshal_ptr.
    assert (forall r,
              Forall (fun g => unmarshalKey g = Some k -> asSlice (fv g) = None) r ->
              unmarshalFields (<[k := [s]]> values) r
              = unmarshalFields (<[k := s :: rest]> values) r) as Hsame.
    { induction 1 as [|g gs Hg _ IH]; simpl; [done|].
      by rewrite (unmarshalField_first_only values g k s rest Hg), IH. }
    rewrite Hsame; [done|].
    apply Forall_app in Hsc as [H1 H2]. apply Forall_app. split; [done|].
    by constructor.
Qed.

(** C4. The first conversion failure ends [Marshal]: when the fields before
    [f] converted (giving the map [uv_pre]) and the conversion of [f] fails
    with [e], [Marshal] returns [e] together with [uv_pre] extended by
    nothing but the strings of the elements of [f] that were added before
    its failing element (none for a scalar); the fields after [f]
    contribute nothing. *)
Theorem marshal_stops_at_first_failure (addr : bool) (pre post : list Field)
    (f : Field) (uv_pre : Url.Values) (k : string) (added : list string) (e : Error) :
  Marshal (anyStruct addr pre) = (uv_pre, None) ->
  marshalKey f = Some k ->
  CanInterface f = true ->
  tagOmitzero f && IsZero (fv f) = false ->
  marshalFails addr f added e ->
  Marshal (anyStruct addr (pre ++ f :: post)) = (addAll uv_pre k added, Some e).
Proof.
  rewrite !Marshal_anyStruct. intros Hpre Hk Hc Hz Hfail.
  rewrite marshalFields_app, Hpre. simpl.
  rewrite marshalField_key, Hk, Hc, Hz. simpl.
  destruct Hfail as [e Hs Ht | ty good bad rest added e Hs Hgood Hbad].
  - by rewrite Hs, Ht.
  - rewrite Hs.
    assert (forall uv, marshalElems k (good ++ bad :: rest) uv
                       = (addAll uv k added, Some e)) as ->; [|done].
    clear Hs Hpre. induction Hgood as [|x s good added Hx _ IH]; intros uv; simpl.
    + by rewrite Hbad.
    + rewrite Hx. apply IH.
Qed.

(** C5. The first conversion failure ends [Unmarshal]: when the fields
    before [f] decoded (leaving them as [pre']) and the text under the key
    [k] of [f] does not convert, [Unmarshal] returns an error that names
    [k] and wraps the underlying failure; the fields before [f] keep their
    decoded values, the fields after [f] are untouched, and [f] itself is
    unchanged unless its own [Unmarshaler] changed it. *)
Theorem unmarshal_stops_at_first_failure (values : Url.Values)
    (pre pre' post : list Field) (f f' : Field) (k : string)
    (strs : list string) (cause : Error) :
  Unmarshal values (APtrStruct pre) = (APtrStruct pre', None) ->
  unmarshalKey f = Some k ->
  values !! k = Some strs ->
  CanSet f = true ->
  unmarshalFails f strs f' cause ->
  Unmarshal values (APtrStruct (pre ++ f :: post))
  = (APtrStruct (pre' ++ f' :: post), Some (ErrField k cause))
  /\ (implementsUnmarshaler true (fv f) = None -> f' = f).
Proof.
  rewrite !Unmarshal_ptr. intros Hpre Hk Hv Hc Hfail.
  destruct (unmarshalFields values pre) as [p1 e1] eqn:Hp. simpl in Hpre.
  injection Hpre as -> ->.
  rewrite unmarshalFields_app, Hp. simpl.
  rewrite unmarshalField_key, Hk, Hv, Hc. simpl.
  destruct Hfail as [s0 strs v' cause Hs Hset | ty old good bad rest v' cause Hs Hgood Hbad].
  - rewrite Hs, Hset. simpl. split; [done|].
    intros Hno. rewrite (setFromString_err_unchanged _ _ _ _ Hno Hset).
    by destruct f.
  - rewrite Hs. destruct (good ++ bad :: rest) as [|s0 l] eqn:Hl.
    { by destruct good. }
    rewrite <- Hl, (unmarshalElems_err ty good bad rest v' cause Hgood Hbad).
    done.
Qed.

(** C6. A list field is written as one entry per element under its key, in
    element order: after a successful [Marshal] in which no later field
    resolves to the key, the strings under the key are those that were
    there before the field followed by the strings of its elements, one
    each. Decoding parses each string under the key on its own, in input
    order, into a fresh zero element, and stores the new list in place of
    whatever the field held ([xs] does not occur in the result). *)
Theorem list_field_entries (addr : bool) (pre post : list Field) (f : Field)
    (ty : GoType) (xs : list Value) :
  asSlice (fv f) = Some (ty, xs) ->
  (forall k uv ss,
      Marshal (anyStruct addr (pre ++ f :: post)) = (uv, None) ->
      marshalKey f = Some k ->
      CanInterface f = true ->
      tagOmitzero f && IsZero (fv f) = false ->
      Forall2 (fun x s => toString true x = Ok s) xs ss ->
      Forall (fun g => marshalKey g <> Some k) post ->
      default [] (uv !! k)
      = default [] ((Marshal (anyStruct addr pre)).1 !! k) ++ ss)
  /\ (forall values k pre' s0 strs vs,
      Unmarshal values (APtrStruct pre) = (APtrStruct pre', None) ->
      unmarshalKey f = Some k ->
      CanSet f = true ->
      values !! k = Some (s0 :: strs) ->
      Forall2 (fun s v => setFromString true (zeroValue ty) s = (v, None))
              (s0 :: strs) vs ->
      exists post' err,
        Unmarshal values (APtrStruct (pre ++ f :: post))
        = (APtrStruct (pre' ++ setFv f (rewrap (fv f) (VSlice ty (Some vs))) :: post'),
           err)).
Proof.
  intros Hs. split.
  - intros k uv ss. rewrite !Marshal_anyStruct. intros Hm Hk Hc Hz Hall Hpost.
    by apply (marshal_slice_entries addr pre f post ∅ uv k ty xs ss).
  - intros values k pre' s0 strs vs. rewrite Unmarshal_ptr.
    intros Hpre Hk Hc Hv Hall.
    destruct (unmarshalFields values pre) as [p1 e1] eqn:Hp. simpl in Hpre.
    injection Hpre as -> ->.
    destruct (unmarshalFields_at values pre pre' f post Hp) as (post' & err & Hu & _).
    exists post', err. rewrite Unmarshal_ptr, Hu. simpl.
    by rewrite (unmarshalField_slice values f k ty xs s0 strs vs).
Qed.

(** X19. A field whose tag gives no name (no [query] tag, an empty one, or
    one that starts with the comma) is written by [Marshal] under
    [strings.ToLower] of its declared name (it touches no other key, and a
    scalar that is the last to write that key leaves its string there),
    and is read by [Unmarshal] under [strings.ToLower] of the first byte
    of the name followed by the rest of the name as it is (what the loop
    body does depends on the input at that key alone, and a scalar takes
    the first string found there). *)
Theorem default_key_derivation (addr : bool) (pre post : list Field) (f : Field) :
  Tag_Get (Tag f) structTagName = ""
  \/ (exists opts, Tag_Get (Tag f) structTagName = String "," opts) ->
  let mkey := Strings.ToLower (Name f) in
  let ukey := Strings.ToLower (Strings.sliceTo 1 (Name f)) +:+ Strings.sliceFrom 1 (Name f) in
  (forall uv k, k <> mkey -> (marshalField addr uv f).1 !! k = uv !! k)
  /\ (forall uv s,
        Marshal (anyStruct addr (pre ++ f :: post)) = (uv, None) ->
        CanInterface f = true ->
        tagOmitzero f && IsZero (fv f) = false ->
        asSlice (fv f) = None ->
        toString addr (fv f) = Ok s ->
        Forall (fun g => marshalKey g <> Some mkey) post ->
        uv !! mkey = Some [s])
  /\ (forall values values' : Url.Values,
        values !! ukey = values' !! ukey ->
        unmarshalField values f = unmarshalField values' f)
  /\ (forall values pre' s0 strs,
        Unmarshal values (APtrStruct pre) = (APtrStruct pre', None) ->
        CanSet f = true ->
        asSlice (fv f) = None ->
        values !! ukey = Some (s0 :: strs) ->
        exists post' err,
          Unmarshal values (APtrStruct (pre ++ f :: post))
          = (APtrStruct (pre' ++ setFv f (setFromString true (fv f) s0).1 :: post'), err)).
Proof.
  intros Htag mkey ukey.
  assert (tagName f = "") as Hname by (by apply parseTag_empty_name).
  assert (marshalKey f = Some mkey) as Hmk by (unfold marshalKey; by rewrite Hname).
  assert (unmarshalKey f = Some ukey) as Huk by (unfold unmarshalKey; by rewrite Hname).
  repeat split.
  - intros uv k Hne. apply marshalField_other. congruence.
  - intros uv s. rewrite Marshal_anyStruct. intros.
    by apply (marshal_last_scalar addr pre f post ∅ uv mkey s).
  - intros values values' Heq. by rewrite !unmarshalField_key, Huk, Heq.
  - intros values pre' s0 strs. rewrite Unmarshal_ptr. intros Hpre Hc Hs Hv.
    destruct (unmarshalFields values pre) as [p1 e1] eqn:Hp. simpl in Hpre.
    injection Hpre as -> ->.
    destruct (unmarshalFields_at values pre pre' f post Hp) as (post' & err & Hu & _).
    exists post', err. rewrite Unmarshal_ptr, Hu. simpl.
    rewrite unmarshalField_key, Huk, Hv, Hc, Hs. simpl.
    by destruct (setFromString true (fv f) s0).
Qed.

(** C8. A field tagged [omitzero]: while it holds its zero value [Marshal]
    returns exactly what it returns for the struct without the field, so
    its key is absent unless another field resolves to it; while it holds
    a non-zero value it is written like any other field (a scalar that is
    the last to write its key leaves its string there; a list appends its
    elements' strings, so that the key is there when the list has an
    element). [Unmarshal] does not look at the option: on two structs that
    differ only in tag options it leaves the same values and returns the
    same error. *)
Theorem omitzero_behaviour (addr : bool) (pre post : list Field) (f : Field) (k : string) :
  tagOmitzero f = true ->
  marshalKey f = Some k ->
  (IsZero (fv f) = true ->
     Marshal (anyStruct addr (pre ++ f :: post)) = Marshal (anyStruct addr (pre ++ post))
     /\ (Forall (fun g => marshalKey g <> Some k) (pre ++ post) ->
         (Marshal (anyStruct addr (pre ++ f :: post))).1 !! k = None))
  /\ (IsZero (fv f) = false ->
      forall uv,
        Marshal (anyStruct addr (pre ++ f :: post)) = (uv, None) ->
        CanInterface f = true ->
        Forall (fun g => marshalKey g <> Some k) post ->
        (forall s, asSlice (fv f) = None -> toString addr (fv f) = Ok s ->
                   uv !! k = Some [s])
        /\ (forall ty xs ss,
              asSlice (fv f) = Some (ty, xs) ->
              Forall2 (fun x s => toString true x = Ok s) xs ss ->
              default [] (uv !! k)
              = default [] ((Marshal (anyStruct addr pre)).1 !! k) ++ ss
              /\ (xs <> [] -> is_Some (uv !! k))))
  /\ (forall values r1 r2,
        Forall2 sameUpToOptions r1 r2 ->
        exists r1' r2' err,
          Unmarshal values (APtrStruct r1) = (APtrStruct r1', err)
          /\ Unmarshal values (APtrStruct r2) = (APtrStruct r2', err)
          /\ map fv r1' = map fv r2').
Proof.
  intros Ho Hk. split; [|split].
  - intros Hz. split.
    + rewrite !Marshal_anyStruct, !marshalFields_app.
      destruct (marshalFields addr pre ∅) as [uv [e|]]; [done|].
      simpl. by rewrite marshalField_omitted.
    + intros Hall. rewrite !Marshal_anyStruct, !marshalFields_app.
      pose proof (marshalFields_absent addr (pre ++ post) k Hall) as Habs.
      rewrite marshalFields_app in Habs.
      destruct (marshalFields addr pre ∅) as [uv [e|]]; [done|].
      simpl. by rewrite marshalField_omitted.
  - intros Hz uv Hm Hc Hpost. rewrite !Marshal_anyStruct in *. split.
    + intros s Hs Ht.
      apply (marshal_last_scalar addr pre f post ∅ uv k s); try done.
      by rewrite Ho.
    + intros ty xs ss Hs Hall.
      assert (default [] (uv !! k)
              = default [] ((marshalFields addr pre ∅).1 !! k) ++ ss) as Hentry.
      { apply (marshal_slice_entries addr pre f post ∅ uv k ty xs ss); try done.
        by rewrite Ho. }
      split; [done|]. intros Hne.
      destruct (uv !! k) as [strs|]; [by eexists|]. simpl in Hentry.
      symmetry in Hentry. apply app_eq_nil in Hentry as [_ ->].
      apply Forall2_nil_inv_r in Hall. done.
  - intros values r1 r2 Hr. rewrite !Unmarshal_ptr.
    destruct (unmarshalFields_options values r1 r2 Hr) as [Hv He].
    exists (unmarshalFields values r1).1, (unmarshalFields values r2).1,
           (unmarshalFields values r1).2.
    by rewrite He.
Qed.

(** C3 (as amended). A timestamp is encoded as the text of the layout
    [time.RFC3339]: the date and the clock of its whole second in its own
    location, then its zone offset (["Z"] at offset 0), and nothing of the
    fraction of a second: timestamps that differ only in the nanoseconds
    encode alike. For a timestamp with a year from 0 to 9999 and a zone
    offset of whole minutes within a day, parsing the text gives the same
    instant at nanosecond 0, in UTC at offset 0, else in [Local] where
    [Local] has that offset at the instant, else in the fixed zone of that
    offset without a name. *)
Theorem timestamp_encoded_to_the_second (addr : bool) (t : Time.Time) :
  toString addr (VTime t)
  = Ok (Time.formatCivil (Time.civilOf t) +:+ Time.formatZone (Time.offset t))
  /\ (forall n,
        toString addr (VTime (Time.mkTime (Time.unixSec t) n (Time.loc t)))
        = toString addr (VTime t))
  /\ (-62167219200 <= Time.unixSec t + Time.offset t < 253402300800 ->
      Time.offset t mod 60 = 0 ->
      -86400 < Time.offset t < 86400 ->
      setFromString true (VTime Time.zero) (Time.FormatRFC3339 t)
      = (VTime (Time.mkTime (Time.unixSec t) 0 (Time.parsedLocation LocalOffset t)),
         None)).
Proof.
  repeat split.
  intros Hy Hm Hr. unfold setFromString. simpl.
  unfold Time.Parse. by rewrite parse_format.
Qed.


End Claims.

(* ===================================================================== *)
(** ** More facts about the tags, the loops and the codec *)
(* ===================================================================== *)

Section TagFacts.

Lemma Split_no_sep name sep :
  hasByte sep name = false -> Strings.Split name sep = [name].
Proof.
  induction name as [|c name IH]; simpl; [done|].
  intros H. apply orb_false_elim in H as [Hc Hn].
  rewrite Hc, (IH Hn). done.
Qed.

Lemma Split_at_sep name sep rest :
  hasByte sep name = false ->
  Strings.Split (name +:+ String sep rest) sep = name :: Strings.Split rest sep.
Proof.
  induction name as [|c name IH]; simpl.
  - intros _. by rewrite Ascii.eqb_refl.
  - intros H. apply orb_false_elim in H as [Hc Hn].
    rewrite Hc, (IH Hn). done.
Qed.

(** The loop of [parseTag] over the options. *)
Lemma omitzero_loop parts acc :
  fold_left (fun acc p => if String.eqb p "omitzero" then true else acc) parts acc
  = acc || bool_decide ("omitzero" ∈ parts).
Proof.
  revert acc. induction parts as [|p parts IH]; intros acc; simpl.
  - by rewrite orb_false_r.
  - rewrite IH. destruct (String.eqb_spec p "omitzero") as [->|Hne].
    + rewrite (bool_decide_true ("omitzero" ∈ "omitzero" :: parts)) by left.
      by rewrite orb_true_r.
    + f_equal. apply bool_decide_ext. rewrite elem_of_cons.
      split; [by right|]. by intros [Heq|Hin]; [symmetry in Heq|].
Qed.

(** Every string is a comma-free name, alone or followed by a comma and
    the rest. *)
Lemma split_first_comma tag :
  exists name, hasByte "," name = false
    /\ (tag = name \/ exists opts, tag = name +:+ String "," opts).
Proof.
  induction tag as [|c tag (name & Hn & Htag)].
  - exists "". split; [done|by left].
  - destruct (Ascii.eqb_spec c ",") as [->|Hc].
    + exists "". split; [done|]. right. by exists tag.
    + exists (String c name). split.
      * simpl. rewrite Hn. apply Ascii.eqb_neq in Hc. by rewrite Hc.
      * destruct Htag as [->|[opts ->]]; [by left|]. right. by exists opts.
Qed.

End TagFacts.

Section KeyFacts.
Context `{T : CaseTables}.

Lemma append_String c s t : String c s +:+ t = String c (s +:+ t).
Proof. reflexivity. Qed.

Lemma append_empty t : "" +:+ t = t.
Proof. reflexivity. Qed.

(** On an ASCII byte, the rune path of [strings.ToLower] does what the
    byte path does. *)
Lemma lower_ascii_rune c :
  Utf8.byteOf c < Utf8.RuneSelf ->
  Utf8.DecodeRuneInString (String c "") = (Utf8.byteOf c, 1%nat)
  /\ 0 <= Unicode.ToLower (Utf8.byteOf c)
  /\ Utf8.EncodeRune (Unicode.ToLower (Utf8.byteOf c)) = String (Strings.lowerByte c) "".
Proof.
  intros H. destruct c as [b0 b1 b2 b3 b4 b5 b6 [|]].
  - exfalso. destruct b0, b1, b2, b3, b4, b5, b6; vm_compute in H; discriminate.
  - clear H.
    destruct b0, b1, b2, b3, b4, b5, b6;
      (split; [reflexivity|split; [vm_compute; discriminate|reflexivity]]).
Qed.

Lemma DecodeRune_ascii c rest :
  Utf8.byteOf c < Utf8.RuneSelf ->
  Utf8.DecodeRuneInString (String c rest) = (Utf8.byteOf c, 1%nat).
Proof.
  intros H. unfold Utf8.DecodeRuneInString.
  destruct (Z.ltb_spec (Utf8.byteOf c) Utf8.RuneSelf); [done|lia].
Qed.

(** [strings.ToLower] lower-cases a leading ASCII byte on its own. *)
Lemma ToLower_ascii_first c rest :
  Utf8.byteOf c < Utf8.RuneSelf ->
  Strings.ToLower (String c rest) = String (Strings.lowerByte c) (Strings.ToLower rest).
Proof.
  intros Hc. destruct (lower_ascii_rune c Hc) as (_ & Hpos & Henc).
  unfold Strings.ToLower. cbn [Strings.isASCII].
  destruct (Z.ltb_spec (Utf8.byteOf c) Utf8.RuneSelf) as [_|]; [|lia].
  destruct (Strings.isASCII rest); [done|]. cbn [andb].
  unfold Strings.Map. cbn [String.length Strings.mapRunes].
  rewrite (DecodeRune_ascii c rest Hc). cbv beta iota zeta.
  destruct (Z.ltb_spec (Unicode.ToLower (Utf8.byteOf c)) 0); [lia|].
  by rewrite Henc.
Qed.

Lemma slice_split n s : Strings.sliceTo n s +:+ Strings.sliceFrom n s = s.
Proof.
  revert s. induction n as [|n IH]; intros [|c s]; simpl; try done.
  by rewrite append_String, IH.
Qed.

Lemma append_inj_l s t1 t2 : s +:+ t1 = s +:+ t2 -> t1 = t2.
Proof.
  induction s as [|c s IH]; [done|]. rewrite !append_String. intros [= H]. auto.
Qed.

End KeyFacts.

Section MapFacts.
Context `{E : Env}.

(** *** What [Marshal] leaves in the map *)

Lemma Add_nonEmpty uv name s :
  entriesNonEmpty uv -> entriesNonEmpty (Url.Add uv name s).
Proof.
  intros H k strs. unfold Url.Add. destruct (decide (name = k)) as [->|Hne].
  - rewrite lookup_insert_eq. intros [= <-]. by destruct (default [] (uv !! k)).
  - rewrite lookup_insert_ne by done. apply H.
Qed.

Lemma marshalElems_nonEmpty name xs : forall uv,
  entriesNonEmpty uv -> entriesNonEmpty (marshalElems name xs uv).1.
Proof.
  induction xs as [|x xs IH]; intros uv H; simpl; [done|].
  destruct (toString true x); [|done]. apply IH. by apply Add_nonEmpty.
Qed.

Lemma marshalField_nonEmpty addr uv f :
  entriesNonEmpty uv -> entriesNonEmpty (marshalField addr uv f).1.
Proof.
  intros H. rewrite marshalField_key.
  destruct (marshalKey f) as [name|]; [|done].
  destruct (negb (CanInterface f)); [done|].
  destruct (tagOmitzero f && IsZero (fv f)); [done|].
  destruct (asSlice (fv f)) as [[ty xs]|].
  - by apply marshalElems_nonEmpty.
  - destruct (toString addr (fv f)); [|done]. simpl.
    intros k strs. unfold Url.Set_. destruct (decide (name = k)) as [->|Hne].
    + rewrite lookup_insert_eq. by intros [= <-].
    + rewrite lookup_insert_ne by done. apply H.
Qed.

Lemma marshalFields_nonEmpty addr fs : forall uv,
  entriesNonEmpty uv -> entriesNonEmpty (marshalFields addr fs uv).1.
Proof.
  induction fs as [|f fs IH]; intros uv H; simpl; [done|].
  pose proof (marshalField_nonEmpty addr uv f H) as Hf.
  destruct (marshalField addr uv f) as [uv' [e|]]; [done|]. by apply IH.
Qed.

(** A field that [Marshal] skips is a no-op of the loop body. *)
Lemma marshalField_skips addr uv f :
  marshalSkips f = true -> marshalField addr uv f = (uv, None).
Proof.
  unfold marshalSkips. rewrite marshalField_key.
  destruct (marshalKey f); [|done].
  destruct (negb (CanInterface f)); [done|]. simpl. by intros ->.
Qed.

Lemma marshalFields_written addr fs k : forall uv : gmap string (list string),
  is_Some ((marshalFields addr fs uv).1 !! k) ->
  is_Some (uv !! k)
  \/ exists f, f ∈ fs /\ marshalKey f = Some k /\ marshalSkips f = false.
Proof.
  induction fs as [|f fs IH]; intros uv; simpl; [by left|].
  intros H.
  assert (is_Some ((marshalField addr uv f).1 !! k) ->
          is_Some (uv !! k)
          \/ (marshalKey f = Some k /\ marshalSkips f = false)) as Hstep.
  { destruct (marshalSkips f) eqn:Hsk.
    - rewrite marshalField_skips by done. by left.
    - destruct (decide (marshalKey f = Some k)) as [Hk|Hk]; [by right|].
      rewrite marshalField_other by done. by left. }
  destruct (marshalField addr uv f) as [uv' [e|]]; simpl in *.
  - destruct (Hstep H) as [?|[? ?]]; [by left|]. right. exists f. split; [left|done].
  - destruct (IH _ H) as [H'|(g & Hg & Hgk & Hgs)].
    + destruct (Hstep H') as [?|[? ?]]; [by left|]. right. exists f. split; [left|done].
    + right. exists g. split; [by right|done].
Qed.

(** *** Unexported fields *)

Lemma marshalField_unexported addr uv f :
  exported f = false -> marshalField addr uv f = (uv, None).
Proof.
  intros H. apply marshalField_skips. unfold marshalSkips, CanInterface.
  rewrite H. by destruct (marshalKey f).
Qed.

Lemma unmarshalField_unexported values f :
  exported f = false -> unmarshalField values f = (f, None).
Proof.
  intros H. rewrite unmarshalField_key. unfold CanSet. rewrite H.
  destruct (unmarshalKey f) as [k|]; [|done].
  by destruct (values !! k) as [[|]|].
Qed.

End MapFacts.

Section LoopFacts.
Context `{E : Env}.

Lemma in_the_middle {A} (l1 : list A) x l2 : x ∈ l1 ++ x :: l2.
Proof. apply elem_of_app. right. left. Qed.

Lemma zeroStruct_app r1 r2 : zeroStruct (r1 ++ r2) = zeroStruct r1 ++ zeroStruct r2.
Proof. unfold zeroStruct. apply map_app. Qed.

Lemma zeroStruct_length r : length (zeroStruct r) = length r.
Proof. unfold zeroStruct. apply length_map. Qed.

(** The field [Unmarshal] leaves at the position of [f], when nothing is
    to be read for [f]. *)
Lemma unmarshalFields_keeps values pre f post :
  unmarshalField values f = (f, None) ->
  (unmarshalFields values (pre ++ f :: post)).1 !! length pre = Some f.
Proof.
  intros Hf. rewrite unmarshalFields_app.
  pose proof (unmarshalFields_length values pre) as Hlen.
  destruct (unmarshalFields values pre) as [pre' [e|]]; simpl in *.
  - rewrite <- Hlen. by rewrite list_lookup_middle.
  - rewrite Hf. destruct (unmarshalFields values post) as [post' err]. simpl.
    rewrite <- Hlen. by rewrite list_lookup_middle.
Qed.

(** *** By value or through a pointer *)

Lemma toString_addr v :
  hasPointerMarshaler v = false -> toString true v = toString false v.
Proof.
  unfold toString, implementsMarshaler, hasPointerMarshaler.
  destruct v as [| | | | | | |name u|]; try done.
  by destruct (marshalerOf name) as [[]|].
Qed.

Lemma marshalField_addr uv f :
  (asSlice (fv f) = None -> hasPointerMarshaler (fv f) = false) ->
  marshalField true uv f = marshalField false uv f.
Proof.
  intros H. rewrite !marshalField_key.
  destruct (marshalKey f); [|done].
  destruct (negb (CanInterface f)); [done|].
  destruct (tagOmitzero f && IsZero (fv f)); [done|].
  destruct (asSlice (fv f)) as [[ty xs]|]; [done|].
  by rewrite toString_addr by auto.
Qed.

(** *** The errors of [Marshal] without hooks *)

Lemma toString_err_kind addr x e :
  hasMarshaler x = false -> toString addr x = Err e ->
  e = ErrUnsupportedType (kindName x).
Proof.
  unfold toString. intros Hm.
  assert (implementsMarshaler addr x = None) as ->.
  { unfold implementsMarshaler, hasMarshaler in *.
    destruct x as [| | | | | | |name u|]; try done.
    by destruct (marshalerOf name). }
  destruct (underlying x); try done; destruct x; congruence.
Qed.

(** *** The errors of [Unmarshal] *)

Lemma unmarshalFields_error values fs : forall res e,
  unmarshalFields values fs = (res, Some e) ->
  exists pre f post pre' f' k strs cause,
    fs = pre ++ f :: post
    /\ unmarshalFields values pre = (pre', None)
    /\ unmarshalKey f = Some k /\ values !! k = Some strs /\ CanSet f = true
    /\ unmarshalFails f strs f' cause
    /\ res = pre' ++ f' :: post
    /\ e = ErrField k cause.
Proof.
  induction fs as [|f fs IH]; intros res e; simpl; [done|].
  destruct (unmarshalField values f) as [f1 [e1|]] eqn:Hf.
  - intros [= <- <-].
    destruct (unmarshalField_error _ _ _ _ Hf) as (k & strs & cause & Hk & Hv & Hc & Hfail & ->).
    by exists [], f, fs, [], f1, k, strs, cause.
  - destruct (unmarshalFields values fs) as [rest' err] eqn:Hrest.
    intros [= <- ->].
    destruct (IH _ _ eq_refl)
      as (pre & g & post & pre' & g' & k & strs & cause & -> & Hpre & Hk & Hv & Hc & Hfail & -> & ->).
    exists (f :: pre), g, post, (f1 :: pre'), g', k, strs, cause.
    repeat split; try done. simpl. by rewrite Hf, Hpre.
Qed.

Lemma unmarshalFails_strs f strs f' cause :
  unmarshalFails f strs f' cause -> strs <> [].
Proof. intros [|? ? good]; [done|by destruct good]. Qed.

(** *** What [Unmarshal] reads *)

Lemma unmarshalField_ext (values values' : Url.Values) f :
  (forall k, unmarshalKey f = Some k -> values !! k = values' !! k) ->
  unmarshalField values f = unmarshalField values' f.
Proof.
  intros H. rewrite !unmarshalField_key.
  destruct (unmarshalKey f) as [k|]; [|done]. by rewrite (H k eq_refl).
Qed.

Lemma unmarshalFields_ext (values values' : Url.Values) fs :
  Forall (fun f => forall k, unmarshalKey f = Some k -> values !! k = values' !! k) fs ->
  unmarshalFields values fs = unmarshalFields values' fs.
Proof.
  induction 1 as [|f fs Hf _ IH]; simpl; [done|].
  by rewrite (unmarshalField_ext values values' f Hf), IH.
Qed.

Lemma unmarshalFields_nothing (values : Url.Values) fs :
  Forall (fun f => forall k, unmarshalKey f = Some k -> default [] (values !! k) = []) fs ->
  unmarshalFields values fs = (fs, None).
Proof.
  induction 1 as [|f fs Hf _ IH]; simpl; [done|].
  assert (unmarshalField values f = (f, None)) as ->.
  { destruct (unmarshalKey f) as [k|] eqn:Hk.
    - by apply (unmarshalField_absent values f k); [|apply Hf].
    - rewrite unmarshalField_key. by rewrite Hk. }
  by rewrite IH.
Qed.

End LoopFacts.

Section RangeFacts.
Import Strconv.

Lemma parseUintLoop_bound maxVal s : forall n v,
  0 <= n <= maxVal -> parseUintLoop maxVal s n = (v, None) -> 0 <= v <= maxVal.
Proof.
  induction s as [|c s IH]; intros n v Hn; simpl.
  - by intros [= <-].
  - destruct ((48 <=? N_of_ascii c)%N && (N_of_ascii c <=? 57)%N); [|done].
    destruct (Z.leb_spec (maxUint64 `div` 10 + 1) n); [done|].
    set (n10 := (n * 10) mod 2 ^ 64).
    set (n1 := (n10 + (Z.of_N (N_of_ascii c) - 48)) mod 2 ^ 64).
    destruct (Z.ltb_spec n1 n10); [done|].
    destruct (Z.ltb_spec maxVal n1); [done|]. simpl.
    apply IH. split; [|done].
    apply Z.mod_pos_bound. lia.
Qed.

Lemma ParseUint_raw_bound s bitSize v :
  0 <= bitSize -> ParseUint_raw s bitSize = (v, None) -> 0 <= v < 2 ^ bitSize.
Proof.
  intros Hb. unfold ParseUint_raw. destruct (String.eqb s ""); [done|].
  intros H. apply parseUintLoop_bound in H; [lia|].
  pose proof (Z.pow_pos_nonneg 2 bitSize). lia.
Qed.

Lemma ParseUint_bound s bitSize u :
  0 <= bitSize -> ParseUint s bitSize = Ok u -> 0 <= u < 2 ^ bitSize.
Proof.
  intros Hb. unfold ParseUint.
  destruct (ParseUint_raw s bitSize) as [v [c|]] eqn:Hr; [done|].
  intros [= <-]. by apply (ParseUint_raw_bound s).
Qed.

Lemma parseUintLoop_range_value maxVal s : forall n v,
  parseUintLoop maxVal s n = (v, Some ErrRange) -> v = maxVal.
Proof.
  induction s as [|c s IH]; intros n v; simpl; [done|].
  destruct ((48 <=? N_of_ascii c)%N && (N_of_ascii c <=? 57)%N); [|done].
  destruct (_ <=? n); [by intros [= <-]|].
  destruct (_ || _); [by intros [= <-]|]. apply IH.
Qed.

Lemma ParseInt_bound s bitSize i :
  1 < bitSize -> ParseInt s bitSize = Ok i ->
  - 2 ^ (bitSize - 1) <= i < 2 ^ (bitSize - 1).
Proof.
  intros Hb. unfold ParseInt. destruct s as [|c rest]; [done|].
  assert (2 ^ bitSize = 2 * 2 ^ (bitSize - 1)) as Hpow.
  { rewrite <- Z.pow_succ_r by lia. f_equal. lia. }
  assert (1 < 2 ^ (bitSize - 1)) by (apply Z.pow_gt_1; lia).
  destruct (if Ascii.eqb c "+" then (false, rest)
            else if Ascii.eqb c "-" then (true, rest) else (false, String c rest))
    as [neg s'].
  destruct (ParseUint_raw s' bitSize) as [un [[]|]] eqn:Hr; [done| |].
  - assert (un = 2 ^ bitSize - 1) as ->.
    { unfold ParseUint_raw in Hr. destruct (String.eqb s' ""); [done|].
      by apply parseUintLoop_range_value in Hr. }
    destruct neg; simpl.
    + destruct (Z.ltb_spec (2 ^ (bitSize - 1)) (2 ^ bitSize - 1)); [done|lia].
    + destruct (Z.leb_spec (2 ^ (bitSize - 1)) (2 ^ bitSize - 1)); [done|lia].
  - apply ParseUint_raw_bound in Hr; [|lia].
    destruct neg; simpl.
    + destruct (Z.ltb_spec (2 ^ (bitSize - 1)) un); [done|]. intros [= <-]. lia.
    + destruct (Z.leb_spec (2 ^ (bitSize - 1)) un); [done|]. intros [= <-]. lia.
Qed.

End RangeFacts.

Section KindFacts.
Context `{E : Env}.

Lemma underlying_idem v : underlying (underlying v) = underlying v.
Proof. induction v; simpl; done. Qed.

Lemma underlying_rewrap v u : underlying (rewrap v u) = underlying u.
Proof. induction v; simpl; done. Qed.

Lemma underlying_not_named v name w : underlying v <> VNamed name w.
Proof. induction v; simpl; done. Qed.



Lemma rewrap_id v : rewrap v (underlying v) = v.
Proof. induction v; simpl; try done. by f_equal. Qed.

Lemma typeOf_rewrap v u :
  typeOf u = typeOf (underlying v) -> typeOf (rewrap v u) = typeOf v.
Proof. intros H. induction v; simpl in *; try done. by rewrite IHv. Qed.


Lemma hasMarshaler_rewrap v u :
  underlying u = u -> hasMarshaler (rewrap v u) = hasMarshaler v.
Proof.
  intros Hu. destruct v; simpl; try done;
    destruct u; try done; by apply underlying_not_named in Hu.
Qed.

Lemma implementsUnmarshaler_none v :
  hasUnmarshaler v = false -> implementsUnmarshaler true v = None.
Proof.
  unfold hasUnmarshaler, implementsUnmarshaler.
  destruct v as [| | | | | | |name u|]; try done. by destruct (unmarshalerOf name).
Qed.

Lemma implementsMarshaler_none addr v :
  hasMarshaler v = false -> implementsMarshaler addr v = None.
Proof.
  unfold hasMarshaler, implementsMarshaler.
  destruct v as [| | | | | | |name u|]; try done. by destruct (marshalerOf name).
Qed.

(** [setFromString] without an [Unmarshaler]: the kind switch. *)
Lemma setFromString_parseAs v s :
  hasUnmarshaler v = false ->
  setFromString true v s
  = match parseAs v s with
    | Ok u => (rewrap v u, None)
    | Err e => (v, Some e)
    end.
Proof.
  intros H. unfold setFromString, parseAs.
  rewrite (implementsUnmarshaler_none v H).
  destruct (underlying v);
    repeat match goal with
           | |- context [match ?x with _ => _ end] => destruct x
           end; done.
Qed.

(** What the kind switch returns: a value that is its own underlying
    value, of the underlying type of [v], within range, and that the same
    text gives again. *)
Lemma parseAs_ok v s u :
  parseAs v s = Ok u ->
  underlying u = u
  /\ typeOf u = typeOf (underlying v)
  /\ fits u = true
  /\ parseAs (rewrap v u) s = Ok u.
Proof.
  unfold parseAs at 1.
  destruct (underlying v) as [s0|sz i|sz n|sz f|b|t|ty xs|name w|kind z] eqn:Hu.
  - intros [= <-]. repeat split; try done.
    unfold parseAs. by rewrite underlying_rewrap.
  - destruct (Strconv.ParseInt s (intBits sz)) as [j|] eqn:Hp; [|done].
    intros [= <-]. repeat split; try done.
    + unfold fits, intInRange. simpl.
      apply ParseInt_bound in Hp; [|by destruct sz].
      apply andb_true_iff. split; [apply Z.leb_le|apply Z.ltb_lt]; lia.
    + unfold parseAs. rewrite underlying_rewrap. simpl. by rewrite Hp.
  - destruct (Strconv.ParseUint s (intBits sz)) as [j|] eqn:Hp; [|done].
    intros [= <-]. repeat split; try done.
    + unfold fits, uintInRange. simpl.
      apply ParseUint_bound in Hp; [|by destruct sz].
      apply andb_true_iff. split; [apply Z.leb_le|apply Z.ltb_lt]; lia.
    + unfold parseAs. rewrite underlying_rewrap. simpl. by rewrite Hp.
  - destruct (ParseFloat s (floatBits sz)) as [j|] eqn:Hp; [|done].
    intros [= <-]. repeat split; try done.
    unfold parseAs. rewrite underlying_rewrap. simpl. by rewrite Hp.
  - destruct (Strconv.ParseBool s) as [j|] eqn:Hp; [|done].
    intros [= <-]. repeat split; try done.
    unfold parseAs. rewrite underlying_rewrap. simpl. by rewrite Hp.
  - destruct v; try done. simpl in Hu. injection Hu as ->.
    destruct (Time.Parse LocalOffset ParseLayout s) as [p|] eqn:Hp; [|done].
    intros [= <-]. repeat split; try done.
    unfold parseAs. simpl. by rewrite Hp.
  - by destruct v.
  - by destruct v.
  - by destruct v.
Qed.


Lemma fits_rewrap v u : underlying u = u -> fits (rewrap v u) = fits u.
Proof. intros Hu. unfold fits. by rewrite underlying_rewrap, Hu. Qed.

(** What [setFromString] leaves fits its type, and has the type it had. *)
Lemma setFromString_fits v s v' err :
  hasUnmarshaler v = false -> fits v = true ->
  setFromString true v s = (v', err) ->
  fits v' = true /\ typeOf v' = typeOf v.
Proof.
  intros H Hf. rewrite setFromString_parseAs by done.
  destruct (parseAs v s) as [u|e] eqn:Hp; intros [= <- <-]; [|done].
  destruct (parseAs_ok v s u Hp) as (Hu & Hty & Hfit & _).
  by rewrite fits_rewrap, typeOf_rewrap.
Qed.

End KindFacts.

Section DecodeFacts.
Context `{E : Env}.

Lemma fits_zeroValue ty : fits (zeroValue ty) = true.
Proof.
  unfold fits. induction ty as [|sz|sz| | | | | |]; simpl; try done; by destruct sz.
Qed.

Lemma asSlice_rewrap v u : asSlice (rewrap v u) = asSlice u.
Proof. unfold asSlice. by rewrite underlying_rewrap. Qed.

Lemma asSlice_type v : asSlice v = None <-> forall ty, typeOf (underlying v) <> TSlice ty.
Proof.
  unfold asSlice. pose proof (underlying_not_named v) as Hn.
  destruct (underlying v); simpl; split; try done; try (intros H; by destruct (H elem)).
Qed.

(** A scalar stays a scalar under [setFromString]. *)
Lemma setFromString_scalar v s v' err :
  hasUnmarshaler v = false -> asSlice v = None ->
  setFromString true v s = (v', err) -> asSlice v' = None.
Proof.
  intros H Hs. rewrite setFromString_parseAs by done.
  destruct (parseAs v s) as [u|e] eqn:Hp; intros [= <- <-]; [|done].
  destruct (parseAs_ok v s u Hp) as (Hu & Hty & _ & _).
  rewrite asSlice_rewrap. apply asSlice_type. rewrite Hu, Hty.
  by apply asSlice_type.
Qed.

Lemma unmarshalElems_fit ty strs : forall acc vs,
  hasUnmarshaler (zeroValue ty) = false ->
  forallb fits acc = true ->
  unmarshalElems ty strs acc = Ok vs -> forallb fits vs = true.
Proof.
  induction strs as [|s strs IH]; intros acc vs Hno Hacc; simpl.
  - by intros [= <-].
  - destruct (setFromString true (zeroValue ty) s) as [v [e|]] eqn:Hs; [done|].
    apply IH; [done|].
    rewrite forallb_app, Hacc. simpl.
    destruct (setFromString_fits _ _ _ _ Hno (fits_zeroValue ty) Hs) as [-> _]. done.
Qed.


(** What the loop body of [Unmarshal] leaves: the same name, tag and
    type, and integers that fit. *)
Lemma unmarshalField_shape values f f' e :
  decodedByKind f = true ->
  unmarshalField values f = (f', e) ->
  Name f' = Name f /\ Tag f' = Tag f /\ typeOf (fv f') = typeOf (fv f)
  /\ (fieldFits f = true -> fieldFits f' = true).
Proof.
  unfold decodedByKind, fieldFits, fieldValues. rewrite unmarshalField_key.
  destruct (unmarshalKey f) as [k|]; [|by intros _ [= <- _]].
  destruct (values !! k) as [[|s0 strs]|]; [by intros _ [= <- _]| |by intros _ [= <- _]].
  destruct (negb (CanSet f)); [by intros _ [= <- _]|].
  destruct (asSlice (fv f)) as [[ty old]|] eqn:Hs.
  - intros Hno. apply negb_true_iff in Hno.
    destruct (unmarshalElems ty (s0 :: strs) []) as [vs|cause] eqn:He.
    + intros [= <- _]. simpl. repeat split.
      * apply typeOf_rewrap. unfold asSlice in Hs.
        by destruct (underlying (fv f)); simplify_eq.
      * intros _. rewrite asSlice_rewrap. unfold asSlice. simpl.
        by apply (unmarshalElems_fit ty (s0 :: strs) [] vs).
    + intros [= <- _]. by rewrite Hs.
  - intros Hno. apply negb_true_iff in Hno.
    destruct (setFromString true (fv f) s0) as [v' err] eqn:Hset.
    intros [= <- _]. simpl.
    pose proof (setFromString_scalar _ _ _ _ Hno Hs Hset) as Hs'.
    rewrite Hs'. repeat split.
    + rewrite setFromString_parseAs in Hset by done.
      destruct (parseAs (fv f) s0) as [u|] eqn:Hp; injection Hset as <- _; [|done].
      destruct (parseAs_ok _ _ _ Hp) as (_ & Hty & _ & _). by apply typeOf_rewrap.
    + simpl. rewrite !andb_true_r. intros Hf.
      by destruct (setFromString_fits _ _ _ _ Hno Hf Hset).
Qed.



Lemma unmarshalFields_shape values fs :
  Forall (fun f => decodedByKind f = true) fs ->
  Forall2 (fun f f' => Name f' = Name f /\ Tag f' = Tag f
                       /\ typeOf (fv f') = typeOf (fv f)
                       /\ (fieldFits f = true -> fieldFits f' = true))
          fs (unmarshalFields values fs).1.
Proof.
  induction 1 as [|f fs Hf _ IH]; simpl; [constructor|].
  pose proof (unmarshalField_shape values f) as Hstep.
  destruct (unmarshalField values f) as [f' [e1|]].
  - simpl. constructor; [by apply (Hstep f' (Some e1))|].
    clear. induction fs; by constructor.
  - destruct (unmarshalFields values fs) as [rest' err]. simpl in *.
    constructor; [by apply (Hstep f' None)|done].
Qed.

End DecodeFacts.

Section OrderFacts.
Context `{E : Env}.

(** *** The order of the fields *)

Lemma marshalElems_error_indep name xs (uv uv' : Url.Values) :
  (marshalElems name xs uv).2 = (marshalElems name xs uv').2.
Proof.
  revert uv uv'. induction xs as [|x xs IH]; intros uv uv'; simpl; [done|].
  destruct (toString true x); [|done]. apply IH.
Qed.

Lemma marshalElems_local name xs (uv uv' : Url.Values) :
  uv !! name = uv' !! name ->
  (marshalElems name xs uv).1 !! name = (marshalElems name xs uv').1 !! name.
Proof.
  revert uv uv'. induction xs as [|x xs IH]; intros uv uv' H; simpl; [done|].
  destruct (toString true x); [|done]. apply IH.
  unfold Url.Add. rewrite !lookup_insert_eq. by rewrite H.
Qed.

(** Whether a field converts does not depend on the map so far. *)
Lemma marshalField_error_indep addr (uv uv' : Url.Values) f :
  (marshalField addr uv f).2 = (marshalField addr uv' f).2.
Proof.
  rewrite !marshalField_key.
  destruct (marshalKey f) as [name|]; [|done].
  destruct (negb (CanInterface f)); [done|].
  destruct (tagOmitzero f && IsZero (fv f)); [done|].
  destruct (asSlice (fv f)) as [[ty xs]|].
  - apply marshalElems_error_indep.
  - by destruct (toString addr (fv f)).
Qed.

(** What a field leaves under its key depends on what was there only. *)
Lemma marshalField_local addr (uv uv' : Url.Values) f k :
  marshalKey f = Some k -> uv !! k = uv' !! k ->
  (marshalField addr uv f).1 !! k = (marshalField addr uv' f).1 !! k.
Proof.
  intros Hk H. rewrite !marshalField_key, Hk.
  destruct (negb (CanInterface f)); [done|].
  destruct (tagOmitzero f && IsZero (fv f)); [done|].
  destruct (asSlice (fv f)) as [[ty xs]|].
  - by apply marshalElems_local.
  - destruct (toString addr (fv f)); [|done].
    simpl. unfold Url.Set_. by rewrite !lookup_insert_eq.
Qed.

Lemma writtenKey_None addr uv f :
  writtenKey f = None -> marshalField addr uv f = (uv, None).
Proof.
  unfold writtenKey. destruct (marshalSkips f) eqn:Hs.
  - intros _. by apply marshalField_skips.
  - intros Hk. rewrite marshalField_key. by rewrite Hk.
Qed.

Lemma writtenKey_Some f k : writtenKey f = Some k -> marshalKey f = Some k.
Proof. unfold writtenKey. by destruct (marshalSkips f). Qed.

(** Two fields written under different keys can change places. *)
Lemma marshalField_swap addr (uv uv1 uv2 : Url.Values) f g :
  (forall k, writtenKey f = Some k -> writtenKey g <> Some k) ->
  marshalField addr uv f = (uv1, None) ->
  marshalField addr uv1 g = (uv2, None) ->
  exists uv1', marshalField addr uv g = (uv1', None)
               /\ marshalField addr uv1' f = (uv2, None).
Proof.
  intros Hne Hf Hg.
  destruct (writtenKey f) as [kf|] eqn:Hkf.
  2:{ rewrite (writtenKey_None addr uv f Hkf) in Hf. injection Hf as <-.
      exists uv2. split; [done|]. by apply writtenKey_None. }
  destruct (writtenKey g) as [kg|] eqn:Hkg.
  2:{ rewrite (writtenKey_None addr uv1 g Hkg) in Hg. injection Hg as <-.
      exists uv. split; [by apply writtenKey_None|done]. }
  assert (kf <> kg) as Hd by (intros ->; by apply (Hne kg)).
  apply writtenKey_Some in Hkf, Hkg.
  exists (marshalField addr uv g).1. split.
  - pose proof (marshalField_error_indep addr uv uv1 g) as He.
    rewrite Hg in He. by destruct (marshalField addr uv g) as [? [?|]].
  - pose proof (marshalField_error_indep addr (marshalField addr uv g).1 uv f) as He.
    rewrite Hf in He.
    destruct (marshalField addr (marshalField addr uv g).1 f) as [uv2' e'] eqn:Hf'.
    simpl in He. subst e'. f_equal. apply map_eq. intros j.
    change uv2' with (uv2', @None Error).1. rewrite <- Hf'.
    change uv2 with (uv2, @None Error).1. rewrite <- Hg.
    change uv1 with (uv1, @None Error).1. rewrite <- Hf.
    destruct (decide (j = kf)) as [->|Hjf].
    + rewrite (marshalField_other addr _ g kf) by congruence.
      apply marshalField_local; [done|].
      apply marshalField_other. congruence.
    + rewrite (marshalField_other addr _ f j) by congruence.
      destruct (decide (j = kg)) as [->|Hjg].
      * apply marshalField_local; [done|].
        symmetry. apply marshalField_other. congruence.
      * rewrite !(marshalField_other addr _ g j) by congruence.
        symmetry. apply marshalField_other. congruence.
Qed.

Lemma marshalFields_Permutation addr fs fs' :
  fs ≡ₚ fs' -> forall uv uv' : Url.Values,
  NoDup (omap writtenKey fs) ->
  marshalFields addr fs uv = (uv', None) ->
  marshalFields addr fs' uv = (uv', None).
Proof.
  induction 1 as [|x l l' Hp IH|x y l|l l' l'' Hp1 IH1 Hp2 IH2];
    intros uv uv' Hnd H.
  - done.
  - simpl in *. destruct (marshalField addr uv x) as [uv1 [e|]]; [done|].
    apply IH; [|done].
    destruct (writtenKey x); [by apply NoDup_cons in Hnd as [_ ?]|done].
  - simpl in H.
    destruct (marshalField addr uv y) as [uv1 [e|]] eqn:Hy; [done|].
    destruct (marshalField addr uv1 x) as [uv2 [e|]] eqn:Hx; [done|].
    destruct (marshalField_swap addr uv uv1 uv2 y x) as (uv1' & Hx' & Hy');
      [|done|done|].
    { intros k Hky Hkx. simpl in Hnd. rewrite Hky, Hkx in Hnd.
      apply NoDup_cons in Hnd as [Hnd _]. apply Hnd. left. }
    simpl. by rewrite Hx', Hy'.
  - apply IH2; [by rewrite <- Hp1|]. by apply IH1.
Qed.

(** *** Hooks of a slice type *)

Lemma asSlice_underlying v : asSlice (underlying v) = asSlice v.
Proof. unfold asSlice. by rewrite underlying_idem. Qed.

Lemma IsZero_underlying v : IsZero (underlying v) = IsZero v.
Proof. unfold IsZero. by rewrite underlying_idem. Qed.

Lemma marshalField_slice_type addr uv f :
  is_Some (asSlice (fv f)) ->
  marshalField addr uv f = marshalField addr uv (setFv f (underlying (fv f))).
Proof.
  intros [[ty xs] Hs]. rewrite !marshalField_key.
  change (marshalKey (setFv f _)) with (marshalKey f).
  change (CanInterface (setFv f _)) with (CanInterface f).
  change (tagOmitzero (setFv f _)) with (tagOmitzero f).
  change (fv (setFv f (underlying (fv f)))) with (underlying (fv f)).
  by rewrite asSlice_underlying, IsZero_underlying, Hs.
Qed.

(** *** A decoder with a value receiver *)

Lemma unmarshalFields_stays values pre f post :
  (unmarshalField values f).1 = f ->
  (unmarshalFields values (pre ++ f :: post)).1 !! length pre = Some f.
Proof.
  intros Hf. rewrite unmarshalFields_app.
  pose proof (unmarshalFields_length values pre) as Hlen.
  destruct (unmarshalFields values pre) as [pre' [e|]]; simpl in *.
  - rewrite <- Hlen. by rewrite list_lookup_middle.
  - destruct (unmarshalField values f) as [f' [e|]]; simpl in Hf; subst f'.
    + simpl. rewrite <- Hlen. by rewrite list_lookup_middle.
    + destruct (unmarshalFields values post) as [post' err]. simpl.
      rewrite <- Hlen. by rewrite list_lookup_middle.
Qed.

Lemma setFromString_by_value addr name u s :
  unmarshalerOf name = Some ByValue -> sharesReferent u = false ->
  (setFromString addr (VNamed name u) s).1 = VNamed name u.
Proof.
  intros H Hsh. unfold setFromString, implementsUnmarshaler. rewrite H, Hsh.
  by destruct (UnmarshalQueryParam name u s).
Qed.

Lemma sharesReferent_not_slice name u :
  sharesReferent u = false -> asSlice (VNamed name u) = None.
Proof.
  unfold sharesReferent, asSlice. simpl. by destruct (underlying u).
Qed.

End OrderFacts.

(* ===================================================================== *)
(** ** Further properties of the package *)
(* ===================================================================== *)

Section Properties.
Context `{E : Env}.

(** X1. [parseTag] takes the text before the first comma as the name, and
    sets [omitzero] exactly when one of the comma-separated pieces after it
    is ["omitzero"]; other options change nothing. A tag without a comma
    is all name. *)
Theorem parseTag_name_and_options (name opts : string) :
  hasByte "," name = false ->
  parseTag name = (name, false)
  /\ parseTag (name +:+ String "," opts)
     = (name, bool_decide ("omitzero" ∈ Strings.Split opts ",")).
Proof.
  intros Hn. split.
  - unfold parseTag. destruct (String.eqb_spec name "") as [->|_]; [done|].
    by rewrite Split_no_sep.
  - unfold parseTag.
    destruct (String.eqb_spec (name +:+ String "," opts) "") as [Heq|_].
    { by destruct name. }
    rewrite Split_at_sep by done. simpl. by rewrite omitzero_loop.
Qed.

(** X2. The two directions resolve the same key for every field with an
    explicit tag name; for a field without one whose declared name starts
    with an ASCII byte, they do exactly when [strings.ToLower] changes
    nothing after the first byte of the name. *)
Theorem keys_agree_iff (f : Field) :
  (tagName f <> "" -> marshalKey f = unmarshalKey f)
  /\ (tagName f = "" -> asciiInitial (Name f) = true ->
      (marshalKey f = unmarshalKey f
       <-> Strings.ToLower (Strings.sliceFrom 1 (Name f)) = Strings.sliceFrom 1 (Name f))).
Proof.
  unfold marshalKey, unmarshalKey. split.
  - intros Hne. apply String.eqb_neq in Hne. by rewrite Hne.
  - intros -> Hascii.
    change (String.eqb "" "-") with false. change (String.eqb "" "") with true.
    cbv iota.
    destruct (Name f) as [|c rest]; [done|].
    unfold asciiInitial in Hascii. apply Z.ltb_lt in Hascii.
    cbn [Strings.sliceTo Strings.sliceFrom].
    rewrite !ToLower_ascii_first by done.
    change (Strings.ToLower "") with "". rewrite append_String, append_empty. split.
    + by intros [= H].
    + by intros ->.
Qed.

(** X3. Whatever [Marshal] returns, with or without an error, no key of
    the map holds an empty list. *)
Theorem Marshal_entries_not_empty (src : Any) (k : string) (strs : list string) :
  (Marshal src).1 !! k = Some strs -> strs <> [].
Proof.
  assert (entriesNonEmpty (Marshal src).1) as H; [|apply H].
  destruct src; simpl; try (intros ? ?; by rewrite lookup_empty);
    by apply marshalFields_nonEmpty; intros ? ?; rewrite lookup_empty.
Qed.

(** X4. Every key of the map [Marshal] returns is the resolved key of a
    field of the struct that [Marshal] does not skip (not tagged ["-"],
    exported, not dropped by [omitzero]). *)
Theorem Marshal_keys_come_from_fields (addr : bool) (r : Struct) (k : string) :
  is_Some ((Marshal (anyStruct addr r)).1 !! k) ->
  exists f, f ∈ r /\ marshalKey f = Some k /\ marshalSkips f = false.
Proof.
  rewrite Marshal_anyStruct. intros H.
  destruct (marshalFields_written addr r k ∅ H) as [[? Hin]|?]; [|done].
  by rewrite lookup_empty in Hin.
Qed.

(** X5. A field that is not exported takes part in neither direction,
    whatever its tag: [Marshal] returns what it returns for the struct
    without the field, and [Unmarshal] leaves the field as it was and
    treats the others as if it were not there. *)
Theorem unexported_field_ignored (addr : bool) (pre post : list Field) (f : Field)
    (values : Url.Values) :
  exported f = false ->
  Marshal (anyStruct addr (pre ++ f :: post)) = Marshal (anyStruct addr (pre ++ post))
  /\ exists pre' post' err,
       length pre' = length pre
       /\ Unmarshal values (APtrStruct (pre ++ post)) = (APtrStruct (pre' ++ post'), err)
       /\ Unmarshal values (APtrStruct (pre ++ f :: post))
          = (APtrStruct (pre' ++ f :: post'), err).
Proof.
  intros Hex. split.
  - rewrite !Marshal_anyStruct, !marshalFields_app.
    destruct (marshalFields addr pre ∅) as [uv [e|]]; [done|].
    simpl. by rewrite marshalField_unexported.
  - rewrite !Unmarshal_ptr, !unmarshalFields_app.
    pose proof (unmarshalFields_length values pre) as Hlen.
    destruct (unmarshalFields values pre) as [pre' [e|]]; simpl in *.
    + by exists pre', post, (Some e).
    + rewrite unmarshalField_unexported by done.
      destruct (unmarshalFields values post) as [post' err]; simpl.
      by exists pre', post', err.
Qed.

(** X6. A field whose decode key no field of the struct encodes to comes
    back from [Marshal] then [Unmarshal] at its zero value, whatever it
    held (so does an untagged field [UserName], written under
    ["username"] and read under ["userName"]). *)
Theorem field_read_elsewhere_comes_back_zero (addr : bool) (pre post : list Field)
    (f : Field) (k : string) :
  unmarshalKey f = Some k ->
  Forall (fun g => marshalKey g <> Some k) (pre ++ f :: post) ->
  structOf (Unmarshal (Marshal (anyStruct addr (pre ++ f :: post))).1
              (APtrStruct (zeroStruct (pre ++ f :: post)))).1
    !! length pre
  = Some (zeroField f).
Proof.
  intros Hk Hall. rewrite Marshal_anyStruct, Unmarshal_ptr. simpl.
  pose proof (marshalFields_absent addr _ k Hall) as Habs.
  rewrite zeroStruct_app. simpl. rewrite <- (zeroStruct_length pre).
  apply unmarshalFields_keeps.
  apply (unmarshalField_absent _ _ k).
  - by destruct f.
  - by rewrite Habs.
Qed.

(** X7. A struct passed by value and the same struct passed through a
    pointer marshal alike, unless a scalar field's type has its
    [MarshalQueryParam] on the pointer receiver. *)
Theorem Marshal_by_value_or_pointer (r : Struct) :
  Forall (fun f => asSlice (fv f) = None -> hasPointerMarshaler (fv f) = false) r ->
  Marshal (AStruct r) = Marshal (APtrStruct r).
Proof.
  intros H. simpl. generalize (∅ : gmap string (list string)).
  induction H as [|f fs Hf _ IH]; intros uv; simpl; [done|].
  rewrite (marshalField_addr uv f Hf).
  destruct (marshalField false uv f) as [uv' [e|]]; [done|]. apply IH.
Qed.

(** X8. When no value handed to [toString] is of a type with a
    [MarshalQueryParam] method or of interface kind (where the method of
    what the interface holds would be found), the only error [Marshal]
    returns for a struct is "unsupported type", with the kind of a value
    (a field, or an element of a list field) of a field it does not
    skip. *)
Theorem Marshal_error_is_unsupported_type (addr : bool) (r : Struct)
    (uv : Url.Values) (e : Error) :
  Forall (fun f => Forall (fun x => hasMarshaler x = false
                                    /\ kindName x <> "interface")
                          (fieldValues f)) r ->
  Marshal (anyStruct addr r) = (uv, Some e) ->
  exists f x,
    f ∈ r /\ marshalSkips f = false /\ x ∈ fieldValues f
    /\ e = ErrUnsupportedType (kindName x).
Proof.
  rewrite Marshal_anyStruct. intros Hno Hm.
  assert (Forall (fun f => Forall (fun x => hasMarshaler x = false) (fieldValues f)) r)
    as Hno'.
  { eapply Forall_impl; [exact Hno|]. intros f Hf.
    eapply Forall_impl; [exact Hf|]. by intros x [? _]. }
  clear Hno. rename Hno' into Hno.
  apply marshalFields_error in Hm
    as (pre & f & post & uv_pre & k & added & -> & _ & Hk & Hc & Hz & Hfail & _).
  apply Forall_app in Hno as [_ Hno]. apply Forall_cons in Hno as [Hf _].
  assert (marshalSkips f = false) as Hsk.
  { unfold marshalSkips. by rewrite Hk, Hc, Hz. }
  unfold fieldValues in *.
  destruct Hfail as [e Hs Ht | ty good bad rest added e Hs Hgood Hbad].
  - rewrite Hs in Hf. apply Forall_cons in Hf as [Hx _].
    exists f, (fv f). rewrite Hs. repeat split; try done.
    + apply in_the_middle.
    + left.
    + by apply (toString_err_kind addr).
  - rewrite Hs in Hf. apply Forall_app in Hf as [_ Hf]. apply Forall_cons in Hf as [Hx _].
    exists f, bad. rewrite Hs. repeat split; try done.
    + apply in_the_middle.
    + apply in_the_middle.
    + by apply (toString_err_kind true).
Qed.

(** X9. Every error [Unmarshal] returns for a pointer to a struct wraps a
    cause under the resolved key of a settable field of the struct for
    which the input holds at least one value. *)
Theorem Unmarshal_error_names_a_key (values : Url.Values) (r : Struct)
    (out : Any) (e : Error) :
  Unmarshal values (APtrStruct r) = (out, Some e) ->
  exists f k strs cause,
    f ∈ r /\ unmarshalKey f = Some k /\ CanSet f = true
    /\ values !! k = Some strs /\ strs <> []
    /\ e = ErrField k cause.
Proof.
  rewrite Unmarshal_ptr. intros [= _ He].
  destruct (unmarshalFields values r) as [res e'] eqn:Hu. simpl in He. subst e'.
  apply unmarshalFields_error in Hu
    as (pre & f & post & pre' & f' & k & strs & cause & -> & _ & Hk & Hv & Hc & Hfail & _ & ->).
  exists f, k, strs, cause. repeat split; try done.
  - apply in_the_middle.
  - by eapply unmarshalFails_strs.
Qed.

(** X10. [Unmarshal] reads the input only at the keys its fields resolve
    to: on two maps that agree at those keys it leaves the same fields
    and returns the same error. Keys that belong to no field are
    ignored. *)
Theorem Unmarshal_reads_only_field_keys (values values' : Url.Values) (r : Struct) :
  Forall (fun f => forall k, unmarshalKey f = Some k -> values !! k = values' !! k) r ->
  Unmarshal values (APtrStruct r) = Unmarshal values' (APtrStruct r).
Proof.
  intros H. by rewrite !Unmarshal_ptr, (unmarshalFields_ext values values' r H).
Qed.

(** X11. When the input holds no value under any key the fields resolve
    to (the key is missing, or its list is empty), [Unmarshal] succeeds
    and leaves the struct as it was. *)
Theorem Unmarshal_without_values (values : Url.Values) (r : Struct) :
  Forall (fun f => forall k, unmarshalKey f = Some k -> default [] (values !! k) = []) r ->
  Unmarshal values (APtrStruct r) = (APtrStruct r, None).
Proof.
  intros H. by rewrite Unmarshal_ptr, (unmarshalFields_nothing values r H).
Qed.

(** X12. [Unmarshal] keeps the type of the struct: whether it succeeds or
    fails, it leaves as many fields, each with the name, the tag and the
    type it had (given that the fields are decoded by kind: defined types
    with an [UnmarshalQueryParam] method set their own value). *)
Theorem Unmarshal_keeps_the_type (values : Url.Values) (r : Struct) :
  Forall (fun f => decodedByKind f = true) r ->
  Forall2 (fun f f' => Name f' = Name f /\ Tag f' = Tag f
                       /\ typeOf (fv f') = typeOf (fv f))
          r (structOf (Unmarshal values (APtrStruct r)).1).
Proof.
  intros H. rewrite Unmarshal_ptr. simpl.
  eapply Forall2_impl; [apply (unmarshalFields_shape values r H)|].
  simpl. intros f f' (? & ? & ? & _). done.
Qed.

(** X13. [Unmarshal] never stores an integer that does not fit the width
    of its field: when the integers of the struct (fields and list
    elements) fit their types before the call, they do after it, whether
    it succeeds or fails. *)
Theorem Unmarshal_keeps_integers_in_range (values : Url.Values) (r : Struct) :
  Forall (fun f => decodedByKind f = true) r ->
  Forall (fun f => fieldFits f = true) r ->
  Forall (fun f => fieldFits f = true) (structOf (Unmarshal values (APtrStruct r)).1).
Proof.
  intros H Hfit. rewrite Unmarshal_ptr. simpl.
  pose proof (unmarshalFields_shape values r H) as Hsh. clear H.
  induction Hsh as [|f f' fs fs' (_ & _ & _ & Hf) _ IH]; [constructor|].
  apply Forall_cons in Hfit as [Hf1 Hfs]. constructor; auto.
Qed.


(** X15. What [setFromString] accepts for a string, integer or boolean
    (without hooks), [toString] writes in a form that [setFromString]
    reads back to the same value: ["+007"] is stored as 7, written as
    ["7"], and read as 7 again. *)
Theorem decoded_value_reencodes (addr : bool) (v v' : Value) (s : string) :
  hasMarshaler v = false -> hasUnmarshaler v = false -> exactKind v = true ->
  setFromString true v s = (v', None) ->
  exists s', toString addr v' = Ok s' /\ setFromString true v s' = (v', None).
Proof.
  intros Hm Hu Hk. rewrite setFromString_parseAs by done.
  destruct (parseAs v s) as [u|] eqn:Hp; [|done]. intros [= <-].
  destruct (parseAs_ok v s u Hp) as (Hun & _ & Hfit & _).
  assert (forall s', toString addr (rewrap v u) = Ok s' ->
                     parseAs v s' = Ok u ->
                     exists s', toString addr (rewrap v u) = Ok s'
                                /\ setFromString true v s' = (rewrap v u, None)) as Hdone.
  { intros s' Ht Hp'. exists s'. split; [done|].
    by rewrite setFromString_parseAs, Hp'. }
  unfold toString in *. rewrite implementsMarshaler_none in *
    by (by rewrite hasMarshaler_rewrap).
  rewrite underlying_rewrap, Hun in *.
  unfold exactKind in Hk. unfold parseAs in *.
  destruct (underlying v) as [s0|sz i|sz n|sz f|b|t|ty xs|name w|kind z]; try done.
  - injection Hp as <-. by apply (Hdone s).
  - destruct (Strconv.ParseInt s (intBits sz)) as [j|] eqn:Hj; [|done].
    injection Hp as <-. apply (Hdone (Strconv.FormatInt j)); [done|].
    apply ParseInt_bound in Hj; [|by destruct sz].
    rewrite ParseInt_FormatInt; [done|by destruct sz|done].
  - destruct (Strconv.ParseUint s (intBits sz)) as [j|] eqn:Hj; [|done].
    injection Hp as <-. apply (Hdone (Strconv.FormatUint j)); [done|].
    apply ParseUint_bound in Hj; [|by destruct sz].
    rewrite ParseUint_FormatUint; [done|by destruct sz|done].
  - destruct (Strconv.ParseBool s) as [j|] eqn:Hj; [|done].
    injection Hp as <-. apply (Hdone (Strconv.FormatBool j)); [done|].
    by rewrite ParseBool_FormatBool.
Qed.

(** X16. The order of the fields does not matter to a successful
    [Marshal] when no two of the fields it writes share a key: every
    reordering of the struct's fields gives the same map, without error. *)
Theorem Marshal_field_order (addr : bool) (r r' : Struct) (uv : Url.Values) :
  r ≡ₚ r' ->
  NoDup (omap writtenKey r) ->
  Marshal (anyStruct addr r) = (uv, None) ->
  Marshal (anyStruct addr r') = (uv, None).
Proof.
  rewrite !Marshal_anyStruct. intros Hp Hnd H.
  by apply (marshalFields_Permutation addr r r' Hp).
Qed.

(** X17. A [MarshalQueryParam] method of a slice type is never called:
    a field of a defined slice type is written element by element, exactly
    as the same field with the plain slice type. *)
Theorem slice_type_marshaler_is_not_used (addr : bool) (pre post : list Field)
    (f : Field) :
  is_Some (asSlice (fv f)) ->
  Marshal (anyStruct addr (pre ++ f :: post))
  = Marshal (anyStruct addr (pre ++ setFv f (underlying (fv f)) :: post)).
Proof.
  intros Hs. rewrite !Marshal_anyStruct, !marshalFields_app.
  destruct (marshalFields addr pre ∅) as [uv [e|]]; [done|].
  simpl. by rewrite <- marshalField_slice_type.
Qed.

(** X18. An [UnmarshalQueryParam] method with a value receiver runs on a
    copy of the field. For a field of a kind that shares nothing with its
    copies (string, integer, float, boolean, timestamp) it cannot store
    what it decodes: whatever the input and whatever the method does,
    [Unmarshal] leaves the field as it was. *)
Theorem value_receiver_unmarshaler_stores_nothing (values : Url.Values)
    (pre post : list Field) (f : Field) (name : string) (u : Value) :
  fv f = VNamed name u ->
  sharesReferent u = false ->
  unmarshalerOf name = Some ByValue ->
  structOf (Unmarshal values (APtrStruct (pre ++ f :: post))).1 !! length pre
  = Some f.
Proof.
  intros Hv Hsh Hu. rewrite Unmarshal_ptr. simpl.
  assert (asSlice (fv f) = None) as Hs.
  { rewrite Hv. by apply sharesReferent_not_slice. }
  apply unmarshalFields_stays. rewrite unmarshalField_key.
  destruct (unmarshalKey f) as [k|]; [|done].
  destruct (values !! k) as [[|s0 strs]|]; [done| |done].
  destruct (negb (CanSet f)); [done|]. rewrite Hs.
  pose proof (setFromString_by_value true name u s0 Hu Hsh) as Hset.
  rewrite <- Hv in Hset.
  destruct (setFromString true (fv f) s0) as [v' err]. simpl in *. subst v'.
  by destruct f.
Qed.

End Properties.

(* ===================================================================== *)
(** ** The claims on the sample records *)
(* ===================================================================== *)

#[local] Existing Instance sampleEnv.

(** C7 on [{Name, Secret `query:"-"`, Count}], with an input that holds
    keys spelled like the opted-out field. *)
Lemma dash_field_ignored_witness :
  tagName (fSecret "s") = "-"
  /\ (Marshal (anyStruct true ([fName "x"] ++ fSecret "s" :: [fCount 5]))
      = Marshal (anyStruct true ([fName "x"] ++ [fCount 5]))
      /\ exists pre' post' err,
           length pre' = length [fName "x"]
           /\ Unmarshal {["Secret" := ["a"]; "secret" := ["b"]; "-" := ["c"]]}
                (APtrStruct ([fName "x"] ++ [fCount 5]))
              = (APtrStruct (pre' ++ post'), err)
           /\ Unmarshal {["Secret" := ["a"]; "secret" := ["b"]; "-" := ["c"]]}
                (APtrStruct ([fName "x"] ++ fSecret "s" :: [fCount 5]))
              = (APtrStruct (pre' ++ fSecret "s" :: post'), err)).
Proof.
  split; [reflexivity|].
  apply (@dash_field_ignored sampleEnv). reflexivity.
Defined.

(** C9 on [{Name `query:"name"`, Alias `query:"name"`, Count}]. *)
Lemma last_scalar_field_wins_witness :
  (forall uv : gmap string (list string),
      marshalField false uv (fAlias "y") = (<["name" := ["y"]]> uv, None))
  /\ (Marshal (anyStruct false ([fName "x"] ++ fAlias "y" :: [fCount 5]))).1 !! "name"
     = Some ["y"].
Proof.
  destruct (last_scalar_field_wins false [fName "x"] [fCount 5] (fAlias "y") "name" "y"
              eq_refl eq_refl eq_refl eq_refl eq_refl) as [Hstep Hlast].
  split; [exact Hstep|].
  apply Hlast; [reflexivity|]. repeat constructor. discriminate.
Defined.

(** C10 on [{Name, Count, Tags}] with three values under ["count"], the
    last of which is no number: [Count] becomes 5, and the call goes on to
    [Tags]. *)
Lemma scalar_field_reads_first_value_witness :
  (exists post' err',
      Unmarshal {["count" := ["5"; "6"; "x"]; "name" := ["n"]; "tags" := ["1"]]}
        (APtrStruct [fTags None])
      = (APtrStruct post', err')
      /\ Unmarshal {["count" := ["5"; "6"; "x"]; "name" := ["n"]; "tags" := ["1"]]}
           (APtrStruct ([fName ""] ++ fCount 0 :: [fTags None]))
         = (APtrStruct ([fName "n"] ++ setFv (fCount 0) (VInt SzInt 5) :: post'), err'))
  /\ (Forall (fun g => unmarshalKey g = Some "count" -> asSlice (fv g) = None)
             ([fName ""] ++ [fTags None]) ->
      Unmarshal (<["count" := ["5"]]>
                   {["count" := ["5"; "6"; "x"]; "name" := ["n"]; "tags" := ["1"]]})
        (APtrStruct ([fName ""] ++ fCount 0 :: [fTags None]))
      = Unmarshal {["count" := ["5"; "6"; "x"]; "name" := ["n"]; "tags" := ["1"]]}
          (APtrStruct ([fName ""] ++ fCount 0 :: [fTags None]))).
Proof.
  apply (@scalar_field_reads_first_value sampleEnv
           {["count" := ["5"; "6"; "x"]; "name" := ["n"]; "tags" := ["1"]]}
           [fName ""] [fName "n"] [fTags None] (fCount 0) "count" "5" ["6"; "x"]
           (VInt SzInt 5) None);
    reflexivity.
Defined.

(** C4 on [{Name, Levels, Count}] where the second level has no name: the
    first level was added before the failure. *)
Lemma marshal_stops_at_first_failure_witness :
  Marshal (anyStruct true ([fName "x"] ++ fLevels [0; 7; 1] :: [fCount 5]))
  = (addAll {["name" := ["x"]]} "levels" ["low"], Some (ErrCustom "unknown level")).
Proof.
  apply (@marshal_stops_at_first_failure sampleEnv); try reflexivity.
  apply (@element_fails sampleEnv true (fLevels [0; 7; 1])
           (TNamed "Level" (TInt SzInt))
           [VNamed "Level" (VInt SzInt 0)] (VNamed "Level" (VInt SzInt 7))
           [VNamed "Level" (VInt SzInt 1)]); try reflexivity.
  repeat constructor.
Defined.

(** C5 on [{Name, Count, Tags}] with ["abc"] under ["count"]. *)
Lemma unmarshal_stops_at_first_failure_witness :
  Unmarshal {["name" := ["x"]; "count" := ["abc"]; "tags" := ["1"]]}
    (APtrStruct ([fName ""] ++ fCount 0 :: [fTags None]))
  = (APtrStruct ([fName "x"] ++ fCount 0 :: [fTags None]),
     Some (ErrField "count" (ErrNum "ParseInt" "abc" ErrSyntax)))
  /\ (implementsUnmarshaler true (fv (fCount 0)) = None -> fCount 0 = fCount 0).
Proof.
  apply (@unmarshal_stops_at_first_failure sampleEnv
           {["name" := ["x"]; "count" := ["abc"]; "tags" := ["1"]]}
           [fName ""] [fName "x"] [fTags None] (fCount 0) (fCount 0) "count" ["abc"]);
    try reflexivity.
  apply (@scalar_decode_fails sampleEnv (fCount 0) "abc" [] (VInt SzInt 0)); reflexivity.
Defined.

(** C6 on the list [[3, 1, 2]] of the specification. *)
Lemma list_field_entries_witness :
  default [] ((Marshal
                 (anyStruct true ([fName "x"] ++ fTags (Some [3; 1; 2]) :: [fCount 5]))).1
              !! "tags")
  = default [] ((Marshal (anyStruct true [fName "x"])).1 !! "tags")
    ++ ["3"; "1"; "2"]
  /\ exists post' err,
      Unmarshal {["name" := ["x"]; "tags" := ["3"; "1"; "2"]]}
        (APtrStruct ([fName ""] ++ fTags (Some [9; 9]) :: [fCount 0]))
      = (APtrStruct ([fName "x"]
                     ++ setFv (fTags (Some [9; 9]))
                          (rewrap (fv (fTags (Some [9; 9])))
                             (VSlice (TInt SzInt)
                                (Some [VInt SzInt 3; VInt SzInt 1; VInt SzInt 2])))
                     :: post'), err).
Proof.
  destruct (@list_field_entries sampleEnv true [fName "x"] [fCount 5]
              (fTags (Some [3; 1; 2])) (TInt SzInt)
              [VInt SzInt 3; VInt SzInt 1; VInt SzInt 2] eq_refl) as [Henc _].
  destruct (@list_field_entries sampleEnv true [fName ""] [fCount 0]
              (fTags (Some [9; 9])) (TInt SzInt)
              [VInt SzInt 9; VInt SzInt 9] eq_refl) as [_ Hdec].
  split.
  - apply (Henc "tags" _ ["3"; "1"; "2"]); try reflexivity.
    + repeat constructor.
    + repeat constructor. discriminate.
  - apply (Hdec {["name" := ["x"]; "tags" := ["3"; "1"; "2"]]} "tags" [fName "x"]
             "3" ["1"; "2"]); try reflexivity.
    repeat constructor.
Defined.

(** C2 at a field whose first character is more than one byte long: the
    exported, untagged field [Édition]. [Marshal] writes it under its name
    in lower case, ["édition"]. [Unmarshal] lower-cases the first byte
    alone, which is no character; the key it reads starts with U+FFFD and
    the second byte of the capital, so that a value under ["édition"] (the
    name with its first character in lower case) never reaches the
    field. *)
Lemma default_key_of_non_ascii_initial :
  Name (fEdition "") = "Édition"
  /\ exported (fEdition "") = true
  /\ tagName (fEdition "") = ""
  /\ marshalKey (fEdition "") = Some "édition"
  /\ unmarshalKey (fEdition "") = Some brokenEditionKey
  /\ Marshal (AStruct [fEdition "quarto"]) = ({["édition" := ["quarto"]]}, None)
  /\ Unmarshal {["édition" := ["quarto"]]} (APtrStruct [fEdition ""])
     = (APtrStruct [fEdition ""], None)
  /\ Unmarshal {[brokenEditionKey := ["quarto"]]} (APtrStruct [fEdition ""])
     = (APtrStruct [fEdition "quarto"], None).
Proof. repeat split; vm_compute; reflexivity. Qed.

(** X19 on the untagged field [UserName]: written under ["username"], read
    under ["userName"]. *)
Lemma default_key_derivation_witness :
  (Marshal (anyStruct true ([fName "x"] ++ fUserName "bob" :: [fCount 5]))).1 !! "username"
  = Some ["bob"]
  /\ (exists post' err,
        Unmarshal {["username" := ["u1"]; "userName" := ["u2"]]}
          (APtrStruct ([fName ""] ++ fUserName "" :: [fCount 0]))
        = (APtrStruct ([fName ""] ++ fUserName "u2" :: post'), err))
  /\ unmarshalField {["username" := ["u1"]]} (fUserName "")
     = unmarshalField ∅ (fUserName "").
Proof.
  destruct (default_key_derivation true [fName "x"] [fCount 5] (fUserName "bob")
              (or_introl eq_refl)) as (_ & Henc & _ & _).
  destruct (default_key_derivation true [fName ""] [fCount 0] (fUserName "")
              (or_introl eq_refl)) as (_ & _ & Hdep & Hdec).
  split; [|split].
  - apply Henc; try reflexivity. repeat constructor. discriminate.
  - apply (Hdec {["username" := ["u1"]; "userName" := ["u2"]]} [fName ""] "u2" []);
      reflexivity.
  - apply Hdep. reflexivity.
Defined.

(** C8 on the scenario of the specification: [Count] with [omitzero], at 0
    and at 5. *)
Lemma omitzero_behaviour_witness :
  (Marshal (anyStruct false ([fName "x"] ++ fCount 0 :: []))
   = Marshal (anyStruct false ([fName "x"] ++ []))
   /\ (Marshal (anyStruct false ([fName "x"] ++ fCount 0 :: []))).1 !! "count" = None)
  /\ (Marshal (anyStruct false ([fName "x"] ++ fCount 5 :: []))).1 !! "count" = Some ["5"]
  /\ exists r1' r2' err,
       Unmarshal {["count" := ["7"]]} (APtrStruct [fCount 0]) = (APtrStruct r1', err)
       /\ Unmarshal {["count" := ["7"]]} (APtrStruct [fCountPlain 0]) = (APtrStruct r2', err)
       /\ map fv r1' = map fv r2'.
Proof.
  destruct (omitzero_behaviour false [fName "x"] [] (fCount 0) "count" eq_refl eq_refl)
    as (Hzero & _ & Hdec).
  destruct (omitzero_behaviour false [fName "x"] [] (fCount 5) "count" eq_refl eq_refl)
    as (_ & Hnonzero & _).
  split; [|split].
  - destruct (Hzero eq_refl) as [H1 H2]. split; [exact H1|].
    apply H2. repeat constructor; discriminate.
  - assert (Marshal (anyStruct false ([fName "x"] ++ fCount 5 :: []))
            = ((Marshal (anyStruct false ([fName "x"] ++ fCount 5 :: []))).1, None))
      as Hm by reflexivity.
    destruct (Hnonzero eq_refl _ Hm eq_refl (Forall_nil_2 _)) as [Hs _].
    apply Hs; reflexivity.
  - apply Hdec. repeat constructor.
Defined.

(** C3 (as amended) on [2000-02-28T18:30:00-05:30], and on the same
    instant in a zone of the time zone database, which comes back in the
    fixed zone without a name. *)
Lemma timestamp_encoded_to_the_second_witness :
  toString true (VTime tsZoned) = Ok "2000-02-28T18:30:00-05:30"
  /\ setFromString true (VTime Time.zero) "2000-02-28T18:30:00-05:30"
     = (VTime tsZoned, None)
  /\ toString true (VTime tsNamed) = Ok "2000-02-29T05:30:00+05:30"
  /\ setFromString true (VTime Time.zero) "2000-02-29T05:30:00+05:30"
     = (VTime (Time.mkTime 951782400 0 (Time.FixedZone "" 19800)), None).
Proof.
  destruct (timestamp_encoded_to_the_second true tsZoned) as (Henc & _ & Hdec).
  destruct (timestamp_encoded_to_the_second true tsNamed) as (Henc' & _ & Hdec').
  split; [exact Henc|]. split; [|split; [exact Henc'|]].
  - apply Hdec.
    + vm_compute. split; [discriminate | reflexivity].
    + reflexivity.
    + vm_compute. split; reflexivity.
  - apply Hdec'.
    + vm_compute. split; [discriminate | reflexivity].
    + reflexivity.
    + vm_compute. split; reflexivity.
Defined.

(** C3 as stated fails: the half second of [2024-01-02T15:04:05.5Z] is not
    in its encoding, which is that of the whole second. *)
Lemma timestamp_fraction_is_dropped :
  Time.nsec tsHalf = 500000000
  /\ toString true (VTime tsHalf) = Ok "2024-01-02T15:04:05Z"
  /\ toString true (VTime tsWhole) = Ok "2024-01-02T15:04:05Z"
  /\ tsHalf <> tsWhole.
Proof. repeat split; try reflexivity. discriminate. Qed.



(* ===================================================================== *)
(** ** The scenarios of the specification *)
(* ===================================================================== *)

Example scenario_count_zero :
  Marshal (AStruct [fName "x"; fCount 0]) = ({["name" := ["x"]]}, None).
Proof. reflexivity. Qed.

Example scenario_count_five :
  Marshal (AStruct [fName "x"; fCount 5])
  = ({["name" := ["x"]; "count" := ["5"]]}, None).
Proof. reflexivity. Qed.

Example scenario_unknown_key :
  Unmarshal {["zzz" := ["1"]]} (APtrStruct [fName ""; fCount 0])
  = (APtrStruct [fName ""; fCount 0], None).
Proof. reflexivity. Qed.

Example scenario_not_a_struct :
  Marshal (AOther "int") = (∅, Some (ErrNotStruct "int"))
  /\ Unmarshal ∅ (AStruct [fName ""]) = (AStruct [fName ""], Some (ErrNotPointer "struct")).
Proof. split; reflexivity. Qed.

Example scenario_default_names :
  Marshal (AStruct [fUserName "bob"]) = ({["username" := ["bob"]]}, None)
  /\ Unmarshal {["userName" := ["bob"]]} (APtrStruct [fUserName ""])
     = (APtrStruct [fUserName "bob"], None).
Proof. split; reflexivity. Qed.

Example scenario_hooks :
  Marshal (APtrStruct [fLevels [1; 0]]) = ({["levels" := ["high"; "low"]]}, None)
  /\ Unmarshal {["levels" := ["low"; "high"]]} (APtrStruct [fLevels []])
     = (APtrStruct [fLevels [0; 1]], None).
Proof. split; reflexivity. Qed.

Example scenario_number_text :
  Strconv.ParseInt "-128" 8 = Ok (-128)
  /\ Strconv.ParseInt "128" 8 = Err (ErrNum "ParseInt" "128" ErrRange)
  /\ Strconv.ParseInt "+12a" 8 = Err (ErrNum "ParseInt" "+12a" ErrSyntax)
  /\ Strconv.ParseUint "18446744073709551615" 64 = Ok (2 ^ 64 - 1)
  /\ Strconv.ParseUint "18446744073709551616" 64
     = Err (ErrNum "ParseUint" "18446744073709551616" ErrRange)
  /\ Strconv.ParseUint "-1" 8 = Err (ErrNum "ParseUint" "-1" ErrSyntax).
Proof. repeat split; reflexivity. Qed.

Example scenario_unicode :
  Utf8.DecodeRuneInString "É" = (201, 2%nat)
  /\ Utf8.DecodeRuneInString "€uro" = (8364, 3%nat)
  /\ Utf8.DecodeRuneInString (String "240" (String "159" (String "152" (String "128" ""))))
     = (128512, 4%nat)
  /\ Utf8.DecodeRuneInString (String "195" "x") = (Utf8.RuneError, 1%nat)
  /\ Utf8.DecodeRuneInString (String "237" (String "160" (String "128" "")))
     = (Utf8.RuneError, 1%nat)
  /\ Utf8.EncodeRune 201 = "É"
  /\ Utf8.EncodeRune 8364 = "€"
  /\ Utf8.EncodeRune 55296 = Utf8.EncodeRune Utf8.RuneError
  /\ Strings.ToLower "UserName" = "username"
  /\ Strings.ToLower "NameÉ" = "nameé"
  /\ Strings.ToLower (String "195" "") = Utf8.EncodeRune Utf8.RuneError
  /\ marshalKey (fNameE "") = Some "nameé"
  /\ unmarshalKey (fNameE "") = Some "nameÉ"
  /\ fieldRoundTrips (fNameE "x") = false
  /\ exported (fEdition "") = true
  /\ exported (fHidden "") = false.
Proof. repeat split; vm_compute; reflexivity. Qed.

Example scenario_timestamps :
  Time.FormatRFC3339 Time.zero = "0001-01-01T00:00:00Z"
  /\ Time.FormatRFC3339 tsZoned = "2000-02-28T18:30:00-05:30"
  /\ Time.parseRFC3339 LocalOffset "2024-02-29T23:59:59.123456789123+00:00"
     = Some (Time.mkTime 1709251199 123456789 (Time.FixedZone "" 0))
  /\ Time.parseRFC3339 LocalOffset "2024-02-29T23:59:59+01:00"
     = Some (Time.mkTime 1709247599 0 (Time.Local 3600))
  /\ Time.parseRFC3339 LocalOffset "2023-02-29T23:59:59Z" = None
  /\ Time.parseRFC3339 LocalOffset "2024-01-02 15:04:05Z" = None
  /\ Time.parseRFC3339 LocalOffset "2024-01-02T15:04:05,5Z" = None
  /\ Time.Parse LocalOffset ParseLayout "2024-01-02T15:04:05,5Z" = Ok tsHalf
  /\ Time.Parse LocalOffset ParseLayout "2024-01-02T5:04:05Z"
     = Ok (Time.mkTime 1704171845 0 Time.UTC)
  /\ Time.Parse LocalOffset ParseLayout "2024-01-02T15:04:05+24:00"
     = Ok (Time.mkTime 1704121445 0 (Time.FixedZone "" 86400))
  /\ Time.Parse LocalOffset ParseLayout "2023-02-29T23:59:59Z"
     = Err (ErrTimeParse "2023-02-29T23:59:59Z")
  /\ Time.Parse LocalOffset ParseLayout "2024-01-02 15:04:05Z"
     = Err (ErrTimeParse "2024-01-02 15:04:05Z").
Proof. repeat split; vm_compute; reflexivity. Qed.

(* ===================================================================== *)
(** ** The further properties on the sample records *)
(* ===================================================================== *)

(** X1 on the tag of [Count]. *)
Lemma parseTag_name_and_options_witness :
  parseTag "count" = ("count", false)
  /\ parseTag "count,omitzero" = ("count", true)
  /\ parseTag "count,x,omitzero,y" = ("count", true)
  /\ parseTag "count,omitZero" = ("count", false).
Proof.
  split; [|split; [|split]].
  - apply (parseTag_name_and_options "count" ""). reflexivity.
  - apply (parseTag_name_and_options "count" "omitzero"). reflexivity.
  - apply (parseTag_name_and_options "count" "x,omitzero,y"). reflexivity.
  - apply (parseTag_name_and_options "count" "omitZero"). reflexivity.
Defined.

(** X2 on [Name `query:"name"`] and on the untagged [UserName]. *)
Lemma keys_agree_iff_witness :
  marshalKey (fName "x") = unmarshalKey (fName "x")
  /\ (marshalKey (fUserName "bob") = unmarshalKey (fUserName "bob")
      <-> "sername" = "serName").
Proof.
  destruct (keys_agree_iff (fName "x")) as [Htagged _].
  destruct (keys_agree_iff (fUserName "bob")) as [_ Hplain].
  split.
  - apply Htagged. vm_compute. discriminate.
  - apply Hplain; reflexivity.
Defined.

(** X3 on the entry under ["tags"]. *)
Lemma Marshal_entries_not_empty_witness :
  (Marshal (AStruct [fName "x"; fTags (Some [3; 1])])).1 !! "tags" = Some ["3"; "1"]
  /\ ["3"; "1"] <> [].
Proof.
  split; [reflexivity|].
  apply (Marshal_entries_not_empty (AStruct [fName "x"; fTags (Some [3; 1])]) "tags").
  reflexivity.
Defined.

(** X4 on the key ["count"] of [{Name, Count}]. *)
Lemma Marshal_keys_come_from_fields_witness :
  exists f, f ∈ [fName "x"; fCount 5] /\ marshalKey f = Some "count"
            /\ marshalSkips f = false.
Proof.
  apply (Marshal_keys_come_from_fields true [fName "x"; fCount 5] "count").
  exists ["5"]. reflexivity.
Defined.

(** X5 on [{Name, hidden, Count}]. *)
Lemma unexported_field_ignored_witness :
  Marshal (anyStruct true ([fName "x"] ++ fHidden "h" :: [fCount 5]))
  = Marshal (anyStruct true ([fName "x"] ++ [fCount 5]))
  /\ exists pre' post' err,
       length pre' = length [fName "x"]
       /\ Unmarshal {["hidden" := ["a"]; "count" := ["7"]]}
            (APtrStruct ([fName "x"] ++ [fCount 5]))
          = (APtrStruct (pre' ++ post'), err)
       /\ Unmarshal {["hidden" := ["a"]; "count" := ["7"]]}
            (APtrStruct ([fName "x"] ++ fHidden "h" :: [fCount 5]))
          = (APtrStruct (pre' ++ fHidden "h" :: post'), err).
Proof.
  apply (@unexported_field_ignored sampleEnv). reflexivity.
Defined.

(** X6 on the untagged [UserName], written under ["username"] and read
    under ["userName"]. *)
Lemma field_read_elsewhere_comes_back_zero_witness :
  structOf (Unmarshal (Marshal (anyStruct true ([fName "x"] ++ fUserName "bob" :: []))).1
              (APtrStruct (zeroStruct ([fName "x"] ++ fUserName "bob" :: [])))).1
    !! length [fName "x"]
  = Some (fUserName "").
Proof.
  apply (@field_read_elsewhere_comes_back_zero sampleEnv true [fName "x"] []
           (fUserName "bob") "userName").
  - reflexivity.
  - repeat constructor; discriminate.
Defined.

(** X7 on the sample record; [Level] has its marshaler on the value
    receiver. *)
Lemma Marshal_by_value_or_pointer_witness :
  Marshal (AStruct (fLevels [1; 0] :: rtRecord))
  = Marshal (APtrStruct (fLevels [1; 0] :: rtRecord)).
Proof.
  apply (@Marshal_by_value_or_pointer sampleEnv).
  repeat constructor; intros _; reflexivity.
Defined.

(** X8 on [{Name, Meta}], where [Meta] is a map. *)
Lemma Marshal_error_is_unsupported_type_witness :
  exists f x,
    f ∈ [fName "x"; fMeta] /\ marshalSkips f = false /\ x ∈ fieldValues f
    /\ ErrUnsupportedType "map" = ErrUnsupportedType (kindName x).
Proof.
  apply (@Marshal_error_is_unsupported_type sampleEnv true [fName "x"; fMeta]
           {["name" := ["x"]]}).
  - repeat constructor; discriminate.
  - reflexivity.
Defined.

(** X9 on [{Name, Count}] with ["abc"] under ["count"]. *)
Lemma Unmarshal_error_names_a_key_witness :
  exists f k strs cause,
    f ∈ [fName ""; fCount 0] /\ unmarshalKey f = Some k /\ CanSet f = true
    /\ ({["name" := ["x"]; "count" := ["abc"]]} : Url.Values) !! k = Some strs
    /\ strs <> []
    /\ ErrField "count" (ErrNum "ParseInt" "abc" ErrSyntax) = ErrField k cause.
Proof.
  apply (@Unmarshal_error_names_a_key sampleEnv
           {["name" := ["x"]; "count" := ["abc"]]} [fName ""; fCount 0]
           (APtrStruct [fName "x"; fCount 0])).
  reflexivity.
Defined.

(** X10 on [{Name, Count}]: the keys ["zzz"] and ["Name"] are not read. *)
Lemma Unmarshal_reads_only_field_keys_witness :
  Unmarshal {["name" := ["x"]; "zzz" := ["1"]; "Name" := ["y"]]}
    (APtrStruct [fName ""; fCount 0])
  = Unmarshal {["name" := ["x"]]} (APtrStruct [fName ""; fCount 0]).
Proof.
  apply (@Unmarshal_reads_only_field_keys sampleEnv).
  repeat constructor; intros k [= <-]; reflexivity.
Defined.

(** X11 on [{Name, Count}] with an empty list under ["name"]. *)
Lemma Unmarshal_without_values_witness :
  Unmarshal {["name" := []; "zzz" := ["1"]]} (APtrStruct [fName "a"; fCount 3])
  = (APtrStruct [fName "a"; fCount 3], None).
Proof.
  apply (@Unmarshal_without_values sampleEnv).
  repeat constructor; intros k [= <-]; reflexivity.
Defined.

(** X12 on [{Name, Count, Tags}], with an input that fails at ["tags"]. *)
Lemma Unmarshal_keeps_the_type_witness :
  Forall2 (fun f f' => Name f' = Name f /\ Tag f' = Tag f
                       /\ typeOf (fv f') = typeOf (fv f))
          [fName ""; fCount 0; fTags None]
          (structOf (Unmarshal {["count" := ["7"]; "tags" := ["1"; "x"]]}
                       (APtrStruct [fName ""; fCount 0; fTags None])).1).
Proof.
  apply (@Unmarshal_keeps_the_type sampleEnv). repeat constructor.
Defined.

(** X13 on a struct with an [int] and a list of [int]. *)
Lemma Unmarshal_keeps_integers_in_range_witness :
  Forall (fun f => fieldFits f = true)
         (structOf (Unmarshal {["count" := ["7"]; "tags" := ["1"; "2"]]}
                      (APtrStruct [fName ""; fCount 0; fTags None])).1).
Proof.
  apply (@Unmarshal_keeps_integers_in_range sampleEnv); repeat constructor.
Defined.


(** X15 on an [int8] read from ["+007"]. *)
Lemma decoded_value_reencodes_witness :
  exists s', toString true (VInt Sz8 7) = Ok s'
             /\ setFromString true (VInt Sz8 0) s' = (VInt Sz8 7, None).
Proof.
  apply (@decoded_value_reencodes sampleEnv true (VInt Sz8 0) (VInt Sz8 7) "+007");
    reflexivity.
Defined.

(** X16 on [{Name, Count, Tags}] with the first two fields exchanged. *)
Lemma Marshal_field_order_witness :
  Marshal (anyStruct false [fCount 5; fName "x"; fTags (Some [3; 1])])
  = ({["name" := ["x"]; "count" := ["5"]; "tags" := ["3"; "1"]]}, None).
Proof.
  apply (@Marshal_field_order sampleEnv false [fName "x"; fCount 5; fTags (Some [3; 1])]).
  - apply perm_swap.
  - apply (bool_decide_unpack _). vm_compute. exact I.
  - reflexivity.
Defined.

(** X17 on a field of the slice type [Modes], whose marshaler would give
    ["joined"]. *)
Lemma slice_type_marshaler_is_not_used_witness :
  @Marshal modeEnv (anyStruct true ([fName "x"] ++ fModes ["a"; "b"] :: []))
  = @Marshal modeEnv (anyStruct true ([fName "x"] ++ fModesPlain ["a"; "b"] :: [])).
Proof.
  apply (@slice_type_marshaler_is_not_used modeEnv true [fName "x"] [] (fModes ["a"; "b"])).
  eexists. reflexivity.
Defined.

(** X18 on a field of type [Mode], whose decoder has a value receiver. *)
Lemma value_receiver_unmarshaler_stores_nothing_witness :
  structOf (@Unmarshal modeEnv {["name" := ["x"]; "mode" := ["fast"]]}
              (APtrStruct ([fName ""] ++ fMode "slow" :: []))).1
    !! length [fName ""]
  = Some (fMode "slow").
Proof.
  apply (@value_receiver_unmarshaler_stores_nothing modeEnv
           {["name" := ["x"]; "mode" := ["fast"]]} [fName ""] [] (fMode "slow")
           "Mode" (VString "slow"));
    reflexivity.
Defined.
